(** * PopplerShot: batch PDF-to-image conversion

    A shallow embedding of the conversion engine of PopplerShot
    ([src/pdf_converter.cpp], [src/file_utils.cpp] with the batch
    processor, [include/*.h]) and the properties of its specification.

    - Part I gives the definitions: the C++ data types as records, the
      rendering backend and the filesystem as oracles, the converter as
      functions in a small logging-and-exception monad, and the batch
      processor as a labelled transition system whose labels are the
      scheduling decisions (which thread moves next, when the
      cancellation flag is raised).
    - Part II proves the properties.

    Integers of the program are modelled by [Z]. The counters of a
    report and the claim counter never exceed the number of files plus
    the number of workers, and page counts are [int] values, so none of
    them wraps around; where the code does arithmetic in [size_t] or
    converts [unsigned] to [int] the wrap-around is written out.
    [double] values are primitive binary64 floats. *)

From Stdlib Require Import ZArith QArith String Ascii PrimFloat Uint63 Lia.
From Stdlib Require FloatAxioms SpecFloat.
From stdpp Require Import base list strings.

Local Open Scope Z_scope.

(* ===================================================================== *)
(** * Part I. Definitions                                                 *)
(* ===================================================================== *)

(** ** Exceptions

    A C++ call either returns a value or leaves by an exception. *)

Inductive exception :=
  | length_error        (* std::length_error, from std::string(count, ch) *)
  | filesystem_error.   (* std::filesystem::filesystem_error *)

Inductive outcome (A : Type) :=
  | Returned (a : A)
  | Threw (e : exception).
Arguments Returned {A} a.
Arguments Threw {A} e.

(** ** The platform: [size_t] and the limits of [std::string]

    [size_bits] is the width of [size_t]; [string_max_size] is
    [std::string::max_size()]; [hardware_concurrency] is what
    [std::thread::hardware_concurrency()] reports (0 when it cannot be
    detected). *)

Record platform := {
  size_bits : Z;
  string_max_size : Z;
  hardware_concurrency : Z
}.

(** 64-bit Linux with libstdc++: [max_size()] is [(PTRDIFF_MAX - 1) / 2]. *)
Definition lp64 (cores : Z) : platform :=
  {| size_bits := 64;
     string_max_size := 4611686018427387903;
     hardware_concurrency := cores |}.

(** Every implementation keeps [max_size()] a few units below [SIZE_MAX];
    seven are enough here. *)
Definition platform_ok (pf : platform) : Prop :=
  0 < size_bits pf /\ 3 <= string_max_size pf /\
  string_max_size pf + 7 < 2 ^ size_bits pf.

(** Subtraction of [size_t] values wraps around. *)
Definition size_t_sub (pf : platform) (a b : Z) : Z :=
  (a - b) mod 2 ^ size_bits pf.

(** An [unsigned] value converted to [int]. *)
Definition int_of_unsigned (u : Z) : Z :=
  let r := u mod 2 ^ 32 in
  if r <? 2 ^ 31 then r else r - 2 ^ 32.

(** ** Strings *)

Definition digit_char (d : Z) : ascii := ascii_of_nat (48 + Z.to_nat d).

Fixpoint decimal_digits (fuel : nat) (n : Z) (acc : string) : string :=
  match fuel with
  | O => acc
  | S fuel' =>
      let acc' := String (digit_char (n mod 10)) acc in
      if n <? 10 then acc' else decimal_digits fuel' (n / 10) acc'
  end.

(** [std::to_string(int)]: an [int] has at most ten decimal digits. *)
Definition to_string (v : Z) : string :=
  if v <? 0 then String "-" (decimal_digits 10 (- v) "")
  else decimal_digits 10 v "".

Fixpoint repeat_char (n : nat) (c : ascii) : string :=
  match n with
  | O => EmptyString
  | S n' => String c (repeat_char n' c)
  end.

(** [std::string(count, ch)]: throws [std::length_error] when [count]
    exceeds [max_size()]. *)
Definition string_fill (pf : platform) (count : Z) (c : ascii) : outcome string :=
  if string_max_size pf <? count then Threw length_error
  else Returned (repeat_char (Z.to_nat count) c).

Definition string_size (s : string) : Z := Z.of_nat (String.length s).

(** ** Paths ([std::filesystem::path], generic format with [/]) *)

Definition slash : ascii := "/"%char.
Definition dot : ascii := "."%char.

(** [path::filename()]: what follows the last separator. *)
Fixpoint path_filename_from (s acc : string) : string :=
  match s with
  | EmptyString => acc
  | String c s' =>
      if Ascii.eqb c slash then path_filename_from s' EmptyString
      else path_filename_from s' (acc +:+ String c EmptyString)
  end.

Definition path_filename (p : string) : string := path_filename_from p EmptyString.

(** The prefix of [s] before its last period, when it has one. *)
Fixpoint before_last_dot (s : string) : option string :=
  match s with
  | EmptyString => None
  | String c s' =>
      match before_last_dot s' with
      | Some p => Some (String c p)
      | None => if Ascii.eqb c dot then Some EmptyString else None
      end
  end.

(** [path::stem()]: the filename without its last extension; a leading
    period does not start an extension, and "." and ".." are kept. *)
Definition path_stem (p : string) : string :=
  let f := path_filename p in
  if String.eqb f "." || String.eqb f ".." then f
  else match f with
       | EmptyString => EmptyString
       | String c rest =>
           match before_last_dot rest with
           | Some pre => String c pre
           | None => f
           end
       end.

(** The length of [s] up to and including its last separator. *)
Fixpoint last_slash_end (s : string) (pos : nat) (found : option nat) : option nat :=
  match s with
  | EmptyString => found
  | String c s' =>
      last_slash_end s' (S pos) (if Ascii.eqb c slash then Some (S pos) else found)
  end.

Fixpoint strip_trailing_slashes (rev_chars : list ascii) : list ascii :=
  match rev_chars with
  | c :: rest => if Ascii.eqb c slash then strip_trailing_slashes rest else rev_chars
  | [] => []
  end.

(** [path::parent_path()]: the path up to the end of the component
    before the last one. A path with no relative part (the empty path,
    or separators only) is returned as it is. *)
Definition path_parent (p : string) : string :=
  match last_slash_end p O None with
  | None => EmptyString
  | Some k =>
      let dir := list_ascii_of_string (String.substring 0 k p) in
      match rev (strip_trailing_slashes (rev dir)) with
      | [] => if Nat.eqb k (String.length p) then p else "/"
      | d => string_of_list_ascii d
      end
  end.

Definition string_last (s : string) : option ascii :=
  last (list_ascii_of_string s).

(** [path::operator/]: an absolute right operand replaces the left one;
    otherwise a separator is added unless the left one is empty or ends
    with one. *)
Definition path_append (dir name : string) : string :=
  match name with
  | String c _ =>
      if Ascii.eqb c slash then name
      else match string_last dir with
           | None => name
           | Some l => if Ascii.eqb l slash then dir +:+ name
                       else dir +:+ "/" +:+ name
           end
  | EmptyString =>
      match string_last dir with
      | None => dir
      | Some l => if Ascii.eqb l slash then dir else dir +:+ "/"
      end
  end.

(** ** [PDFConverter::generate_output_filename]

    [3 - std::to_string(page_number).length()] is computed in [size_t]. *)
Definition generate_output_filename (pf : platform)
    (pdf_path : string) (page_number : Z) (extension : string) : outcome string :=
  let base_name := path_stem pdf_path in
  let digits := to_string page_number in
  match string_fill pf (size_t_sub pf 3 (string_size digits)) "0" with
  | Threw e => Threw e
  | Returned zeros =>
      Returned (base_name +:+ "_page_" +:+ zeros +:+ digits +:+ "." +:+ extension)
  end.

(** ** Conversion options and results ([include/pdf_converter.h])

    The arithmetic of the scale computation is written once, over a type
    [T] of numbers with the four operations the code uses; the program
    runs it on [double] (the [float] instance below), and the exact
    rational instance gives the real-number reading of the same text. *)

Class Arith (T : Type) := {
  a_div : T -> T -> T;
  a_mul : T -> T -> T;
  a_ltb : T -> T -> bool;          (* [x < y] *)
  a_of_int : Z -> T;               (* the conversion of an [int] operand *)
  a_72 : T                         (* the literal [72.0] *)
}.

Definition float_of_int (z : Z) : float :=
  if z <? 0 then PrimFloat.opp (PrimFloat.of_uint63 (Uint63.of_Z (- z)))
  else PrimFloat.of_uint63 (Uint63.of_Z z).

#[export] Instance double_arith : Arith float := {
  a_div := PrimFloat.div;
  a_mul := PrimFloat.mul;
  a_ltb := PrimFloat.ltb;
  a_of_int := float_of_int;
  a_72 := 72%float
}.

#[export] Instance exact_arith : Arith Q := {
  a_div := Qdiv;
  a_mul := Qmult;
  a_ltb := fun x y => negb (Qle_bool y x);
  a_of_int := inject_Z;
  a_72 := 72%Q
}.

Record ConversionOptions (T : Type) := {
  dpi : T;
  output_format : string;
  preserve_aspect_ratio : bool;
  max_width : Z;     (* 0 means no limit *)
  max_height : Z     (* 0 means no limit *)
}.
Arguments dpi {T} _.
Arguments output_format {T} _.
Arguments preserve_aspect_ratio {T} _.
Arguments max_width {T} _.
Arguments max_height {T} _.

Definition default_options : ConversionOptions float :=
  {| dpi := 300%float; output_format := "png";
     preserve_aspect_ratio := true; max_width := 0; max_height := 0 |}.

Record ConversionResult := {
  success : bool;
  error_message : string;
  pages_converted : Z
}.

Definition with_error (r : ConversionResult) (msg : string) : ConversionResult :=
  {| success := success r; error_message := msg;
     pages_converted := pages_converted r |}.

(** ** The scale computation of [PDFConverter::save_page_as_image] *)

(** [std::min(a, b)] is [(b < a) ? b : a]. *)
Definition std_min {T} `{Arith T} (a b : T) : T := if a_ltb b a then b else a.

Definition render_scale {T} `{Arith T}
    (options : ConversionOptions T) (page_width page_height : T) : T * T :=
  let scale_x := a_div (dpi options) a_72 in
  let scale_y := a_div (dpi options) a_72 in
  if (0 <? max_width options) || (0 <? max_height options) then
    let target_width := a_mul page_width scale_x in
    let target_height := a_mul page_height scale_y in
    let scale_x :=
      if (0 <? max_width options)
         && a_ltb (a_of_int (max_width options)) target_width
      then a_div (a_of_int (max_width options)) page_width else scale_x in
    let scale_y :=
      if (0 <? max_height options)
         && a_ltb (a_of_int (max_height options)) target_height
      then a_div (a_of_int (max_height options)) page_height else scale_y in
    if preserve_aspect_ratio options then
      let min_scale := std_min scale_x scale_y in
      (min_scale, min_scale)
    else (scale_x, scale_y)
  else (scale_x, scale_y).

(** The scale computation in the words of the specification: each axis
    starts at dpi/72 and is recomputed as limit/dimension when a limit is
    configured on it and the rendered dimension would exceed it; with
    preserve-aspect-ratio both axes take the smaller factor. *)
Definition spec_axis_scale {T} `{Arith T} (dpi_value : T) (limit : Z) (dimension : T) : T :=
  let base := a_div dpi_value a_72 in
  if (0 <? limit) && a_ltb (a_of_int limit) (a_mul dimension base)
  then a_div (a_of_int limit) dimension else base.

Definition spec_render_scale {T} `{Arith T}
    (options : ConversionOptions T) (page_width page_height : T) : T * T :=
  let sx := spec_axis_scale (dpi options) (max_width options) page_width in
  let sy := spec_axis_scale (dpi options) (max_height options) page_height in
  if preserve_aspect_ratio options then (std_min sx sy, std_min sx sy)
  else (sx, sy).

(** ** The rendering backend and the filesystem

    Poppler and [std::filesystem] are outside the repository; the
    converter sees them through these operations. A null pointer is
    [None]. [create_directories] may throw. *)

Record Backend := {
  document : Type;
  page : Type;
  image : Type;
  load_from_file : string -> option document;
  is_locked : document -> bool;
  pages : document -> Z;
  create_page : document -> Z -> option page;
  page_rect_width : page -> float;
  page_rect_height : page -> float;
  render_page : page -> float -> float -> image;
  is_valid : image -> bool;
  image_save : image -> string -> string -> bool;
  create_directories : string -> outcome bool
}.

(** The calls the converter makes, in the order it makes them. *)
Inductive call :=
  | CallLoad (path : string)
  | CallCreateDirectories (path : string)
  | CallCreatePage (index : Z)
  | CallPageRect
  | CallRender (xres yres : float)
  | CallSave (path format : string).

(** A computation logs its calls and returns or throws. *)
Definition io (A : Type) : Type := list call * outcome A.

Definition io_ret {A} (a : A) : io A := ([], Returned a).
Definition io_call {A} (c : call) (a : A) : io A := ([c], Returned a).
Definition io_lift {A} (c : list call) (o : outcome A) : io A := (c, o).
Definition io_bind {A B} (m : io A) (f : A -> io B) : io B :=
  match m with
  | (l, Returned a) => let '(l', r) := f a in (l ++ l', r)
  | (l, Threw e) => (l, Threw e)
  end.

Notation "'let!' x := m 'in' k" := (io_bind m (fun x => k))
  (at level 10, x name, m at level 100, k at level 200, only parsing).
Notation "'perform' m 'in' k" := (io_bind m (fun _ => k))
  (at level 10, m at level 100, k at level 200, only parsing).

Definition io_log {A} (m : io A) : list call := fst m.
Definition io_result {A} (m : io A) : outcome A := snd m.

(** ** [PDFConverter::load_document] *)
Definition load_document (b : Backend) (pdf_path : string) : io (option (document b)) :=
  io_call (CallLoad pdf_path)
    (match load_from_file b pdf_path with
     | Some doc => if is_locked b doc then None else Some doc
     | None => None
     end).

(** ** [PDFConverter::save_page_as_image] *)
Definition encoder_format (output_format : string) : string :=
  if String.eqb output_format "png" then "png"
  else if String.eqb output_format "jpg" || String.eqb output_format "jpeg" then "jpeg"
  else output_format.

Definition save_page_as_image (b : Backend) (pg : option (page b))
    (output_path : string) (options : ConversionOptions float) : io bool :=
  match pg with
  | None => io_ret false
  | Some p =>
      let! page_width := io_call CallPageRect (page_rect_width b p) in
      let page_height := page_rect_height b p in
      let '(scale_x, scale_y) := render_scale options page_width page_height in
      let xres := PrimFloat.mul scale_x 72%float in
      let yres := PrimFloat.mul scale_y 72%float in
      let! img := io_call (CallRender xres yres) (render_page b p xres yres) in
      if negb (is_valid b img) then io_ret false
      else
        perform io_lift [CallCreateDirectories (path_parent output_path)]
               (create_directories b (path_parent output_path)) in
        io_call (CallSave output_path (encoder_format (output_format options)))
          (image_save b img output_path (encoder_format (output_format options)))
  end.

(** ** [PDFConverter::convert_page] *)
Definition convert_page (b : Backend) (pdf_path : string) (page_number : Z)
    (output_path : string) (options : ConversionOptions float) : io ConversionResult :=
  let result := {| success := false; error_message := ""; pages_converted := 0 |} in
  let! doc := load_document b pdf_path in
  match doc with
  | None => io_ret (with_error result "Failed to load PDF document")
  | Some d =>
      if (page_number <? 1) || (pages b d <? page_number) then
        io_ret (with_error result "Invalid page number")
      else
        let! pg := io_call (CallCreatePage (page_number - 1)) (create_page b d (page_number - 1)) in
        match pg with
        | None => io_ret (with_error result "Failed to create page")
        | Some p =>
            let! saved := save_page_as_image b (Some p) output_path options in
            if saved then
              io_ret {| success := true; error_message := error_message result;
                        pages_converted := 1 |}
            else io_ret (with_error result "Failed to save page as image")
        end
  end.

(** ** [PDFConverter::convert_pdf] *)

(** The size of the page semaphore. *)
Definition max_concurrent_pages (pf : platform) : Z :=
  Z.min 8 (Z.max 2 (int_of_unsigned (hardware_concurrency pf))).

(** The task launched for page index [i]: the body of the lambda. *)
Definition page_task (b : Backend) (pf : platform) (doc : document b)
    (pdf_path output_dir : string) (options : ConversionOptions float) (i : Z) : io bool :=
  let! pg := io_call (CallCreatePage i) (create_page b doc i) in
  match pg with
  | None => io_ret false
  | Some p =>
      let! output_filename := io_lift []
        (generate_output_filename pf pdf_path (i + 1) (output_format options)) in
      let output_path := path_append output_dir output_filename in
      save_page_as_image b (Some p) output_path options
  end.

(** The collecting loop: [future.get()] rethrows what the task threw, and
    the [catch] clause drops it. *)
Fixpoint collect_results (futures : list (outcome bool)) (result : ConversionResult)
    : ConversionResult :=
  match futures with
  | [] => result
  | future :: rest =>
      collect_results rest
        (match future with
         | Returned true =>
             {| success := success result; error_message := error_message result;
                pages_converted := pages_converted result + 1 |}
         | Returned false => result
         | Threw _ => result
         end)
  end.

(** The tasks of pages [0 .. page_count - 1]. Their calls are logged task
    by task, in page order; the program runs them concurrently, so calls
    of different tasks may interleave, but each task's own calls keep
    their order and nothing a task computes depends on another task. *)
Definition page_tasks (b : Backend) (pf : platform) (doc : document b)
    (pdf_path output_dir : string) (options : ConversionOptions float) : list (io bool) :=
  map (page_task b pf doc pdf_path output_dir options) (seqZ 0 (pages b doc)).

Definition convert_pdf (b : Backend) (pf : platform) (pdf_path output_dir : string)
    (options : ConversionOptions float) : io ConversionResult :=
  let result := {| success := false; error_message := ""; pages_converted := 0 |} in
  let! doc := load_document b pdf_path in
  match doc with
  | None => io_ret (with_error result "Failed to load PDF document")
  | Some d =>
      perform io_lift [CallCreateDirectories output_dir] (create_directories b output_dir) in
      let tasks := page_tasks b pf d pdf_path output_dir options in
      let result := collect_results (map io_result tasks) result in
      let result :=
        {| success := 0 <? pages_converted result;
           error_message := error_message result;
           pages_converted := pages_converted result |} in
      io_lift (concat (map io_log tasks))
        (Returned (if success result then result
                   else with_error result "No pages were successfully converted"))
  end.

(** A backend for examples: every document has [n] pages of 600 x 800
    points, page index [bad] cannot be created, and everything else
    succeeds. *)
Definition sample_backend (n bad : Z) : Backend :=
  {| document := unit; page := Z; image := unit;
     load_from_file := fun path => if String.eqb path "missing.pdf" then None else Some tt;
     is_locked := fun _ => false;
     pages := fun _ => n;
     create_page := fun _ i => if i =? bad then None else Some i;
     page_rect_width := fun _ => 600%float;
     page_rect_height := fun _ => 800%float;
     render_page := fun _ _ _ => tt;
     is_valid := fun _ => true;
     image_save := fun _ _ _ => true;
     create_directories := fun _ => Returned false |}.

(** ** The batch processor ([include/batch_processor.h], [src/file_utils.cpp]) *)

Record BatchResult := {
  total_pdfs : Z;
  successful_conversions : Z;
  failed_conversions : Z;
  total_pages_converted : Z;
  errors : list string
}.

Record ProgressInfo := {
  current_file : Z;
  total_files : Z;
  current_filename : string;
  pages_processed : Z
}.

(** [BatchProcessor::BatchProcessor]: the value left in [num_threads_]. *)
Definition BatchProcessor_ctor (pf : platform) (num_threads : Z) : Z :=
  if num_threads <=? 0 then int_of_unsigned (hardware_concurrency pf)
  else num_threads.

(** [BatchProcessor::set_thread_count]. *)
Definition set_thread_count (pf : platform) (num_threads : Z) : Z :=
  if 0 <? num_threads then num_threads
  else int_of_unsigned (hardware_concurrency pf).

(** What one call of [process_directory] is given: the list
    [find_pdf_files] returns, whether [ensure_output_directory] succeeds,
    the processor's [num_threads_], what [converter_.convert_pdf] returns
    for each file, and whether a progress callback was passed. A call of
    [convert_pdf] that throws inside a worker thread terminates the
    process; such an execution returns no report and is no run here. *)
Record batch_env := {
  pdf_files : list string;
  output_dir_ready : bool;
  num_threads_ : Z;
  convert : string -> ConversionResult;
  has_progress_callback : bool
}.

(** Where the calling thread stands in [process_directory]. *)
Inductive main_pc :=
  | M_find                    (* before find_pdf_files *)
  | M_ensure                  (* before ensure_output_directory *)
  | M_loop (i : Z)            (* at the condition of the launching loop *)
  | M_launch (i : Z)          (* condition passed, before emplace_back *)
  | M_join                    (* waiting for the workers *)
  | M_return.                 (* returned *)

(** Where a worker stands in [worker_thread]. *)
Inductive worker_pc :=
  | W_check                   (* at [while (!cancel_requested_)] *)
  | W_fetch                   (* condition passed, before fetch_add *)
  | W_progress (index : Z)    (* index claimed, before the progress block *)
  | W_convert (index : Z)     (* before convert_pdf and the locked update *)
  | W_exit.                   (* left the loop *)

(** What a run does that can be observed, newest first in [trace]. *)
Inductive event :=
  | EvEnsureDir
  | EvSpawn (w : nat)
  | EvCancel
  | EvClaim (w : nat) (index : Z) (cancel_was_set : bool)
  | EvProgress (w : nat) (info : ProgressInfo)
  | EvRecord (w : nat) (index : Z).

Record state := {
  main : main_pc;
  workers : list worker_pc;
  file_index : Z;
  cancel_requested_ : bool;
  result : BatchResult;
  trace : list event
}.

Definition initial_state : state :=
  {| main := M_find; workers := []; file_index := 0;
     cancel_requested_ := false;
     result := {| total_pdfs := 0; successful_conversions := 0;
                  failed_conversions := 0; total_pages_converted := 0;
                  errors := [] |};
     trace := [] |}.

Definition set_main (s : state) (m : main_pc) : state :=
  {| main := m; workers := workers s; file_index := file_index s;
     cancel_requested_ := cancel_requested_ s; result := result s;
     trace := trace s |}.

Definition set_worker (s : state) (w : nat) (p : worker_pc) : state :=
  {| main := main s; workers := <[w := p]> (workers s);
     file_index := file_index s; cancel_requested_ := cancel_requested_ s;
     result := result s; trace := trace s |}.

Definition set_result (s : state) (r : BatchResult) : state :=
  {| main := main s; workers := workers s; file_index := file_index s;
     cancel_requested_ := cancel_requested_ s; result := r;
     trace := trace s |}.

Definition log_event (s : state) (e : event) : state :=
  {| main := main s; workers := workers s; file_index := file_index s;
     cancel_requested_ := cancel_requested_ s; result := result s;
     trace := e :: trace s |}.

Definition push_error (r : BatchResult) (msg : string) : BatchResult :=
  {| total_pdfs := total_pdfs r;
     successful_conversions := successful_conversions r;
     failed_conversions := failed_conversions r;
     total_pages_converted := total_pages_converted r;
     errors := errors r ++ [msg] |}.

Definition set_total (r : BatchResult) (n : Z) : BatchResult :=
  {| total_pdfs := n;
     successful_conversions := successful_conversions r;
     failed_conversions := failed_conversions r;
     total_pages_converted := total_pages_converted r;
     errors := errors r |}.

(** The locked update at the end of the worker loop. *)
Definition record_result (r : BatchResult) (pdf_file : string)
    (conversion_result : ConversionResult) : BatchResult :=
  if success conversion_result then
    {| total_pdfs := total_pdfs r;
       successful_conversions := successful_conversions r + 1;
       failed_conversions := failed_conversions r;
       total_pages_converted :=
         total_pages_converted r + pages_converted conversion_result;
       errors := errors r |}
  else
    {| total_pdfs := total_pdfs r;
       successful_conversions := successful_conversions r;
       failed_conversions := failed_conversions r + 1;
       total_pages_converted := total_pages_converted r;
       errors := errors r ++ [pdf_file +:+ ": " +:+ error_message conversion_result] |}.

Definition file_count (env : batch_env) : Z := Z.of_nat (length (pdf_files env)).

Definition file_at (env : batch_env) (index : Z) : string :=
  default EmptyString (pdf_files env !! Z.to_nat index).

Definition exited (p : worker_pc) : bool :=
  match p with W_exit => true | _ => false end.

(** One step of the calling thread in [process_directory]. Joining waits:
    while a worker is still running the step changes nothing. *)
Definition step_main (env : batch_env) (s : state) : state :=
  match main s with
  | M_find =>
      let s := set_result s (set_total (result s) (file_count env)) in
      match pdf_files env with
      | [] => set_main (set_result s (push_error (result s)
                          "No PDF files found in input directory")) M_return
      | _ :: _ => set_main s M_ensure
      end
  | M_ensure =>
      let s := log_event s EvEnsureDir in
      if output_dir_ready env then set_main s (M_loop 0)
      else set_main (set_result s (push_error (result s)
                       "Failed to create output directory")) M_return
  | M_loop i =>
      if (i <? num_threads_ env) && negb (cancel_requested_ s)
      then set_main s (M_launch i) else set_main s M_join
  | M_launch i =>
      let w := length (workers s) in
      {| main := M_loop (i + 1); workers := workers s ++ [W_check];
         file_index := file_index s; cancel_requested_ := cancel_requested_ s;
         result := result s; trace := EvSpawn w :: trace s |}
  | M_join =>
      if forallb exited (workers s) then set_main s M_return else s
  | M_return => s
  end.

(** One step of worker [w] in [worker_thread]. *)
Definition step_worker (env : batch_env) (w : nat) (s : state) : state :=
  match workers s !! w with
  | Some W_check =>
      if cancel_requested_ s then set_worker s w W_exit
      else set_worker s w W_fetch
  | Some W_fetch =>
      let current_index := file_index s in
      let s := {| main := main s; workers := workers s;
                  file_index := current_index + 1;
                  cancel_requested_ := cancel_requested_ s;
                  result := result s; trace := trace s |} in
      if file_count env <=? current_index then set_worker s w W_exit
      else set_worker
             (log_event s (EvClaim w current_index (cancel_requested_ s)))
             w (W_progress current_index)
  | Some (W_progress current_index) =>
      let s :=
        if has_progress_callback env then
          log_event s (EvProgress w
            {| current_file := current_index + 1;
               total_files := file_count env;
               current_filename := path_stem (file_at env current_index);
               pages_processed := total_pages_converted (result s) |})
        else s in
      set_worker s w (W_convert current_index)
  | Some (W_convert current_index) =>
      let pdf_file := file_at env current_index in
      let conversion_result := convert env pdf_file in
      let s := set_result s (record_result (result s) pdf_file conversion_result) in
      set_worker (log_event s (EvRecord w current_index)) w W_check
  | Some W_exit => s
  | None => s
  end.

(** [BatchProcessor::cancel_processing], called from another thread. *)
Definition cancel_processing (s : state) : state :=
  {| main := main s; workers := workers s; file_index := file_index s;
     cancel_requested_ := true; result := result s;
     trace := EvCancel :: trace s |}.

(** A schedule says which thread moves next and when the flag is raised. *)
Inductive label :=
  | L_main
  | L_worker (w : nat)
  | L_cancel.

Definition step (env : batch_env) (l : label) (s : state) : state :=
  match l with
  | L_main => step_main env s
  | L_worker w => step_worker env w s
  | L_cancel => cancel_processing s
  end.

Definition exec (env : batch_env) (schedule : list label) (s : state) : state :=
  fold_left (fun s l => step env l s) schedule s.

(** The state of [process_directory] after [schedule]. *)
Definition process_directory (env : batch_env) (schedule : list label) : state :=
  exec env schedule initial_state.

Definition returned (s : state) : Prop := main s = M_return.

(** *** Readings of the trace *)

Definition claimed_indices (t : list event) : list Z :=
  omap (fun e => match e with EvClaim _ i _ => Some i | _ => None end) t.

Definition recorded_indices (t : list event) : list Z :=
  omap (fun e => match e with EvRecord _ i => Some i | _ => None end) t.

Definition is_spawn (e : event) : bool :=
  match e with EvSpawn _ => true | _ => false end.

Definition is_ensure (e : event) : bool :=
  match e with EvEnsureDir => true | _ => false end.

Definition spawn_count (t : list event) : nat := length (List.filter is_spawn t).

Definition ensure_count (t : list event) : nat := length (List.filter is_ensure t).

(** The claims worker [w] made while the flag was already set. *)
Definition late_claims (w : nat) (t : list event) : list Z :=
  omap (fun e => match e with
                 | EvClaim w' i true => if decide (w' = w) then Some i else None
                 | _ => None
                 end) t.

(** The report built from the outcomes of [indices] (newest first). *)
Fixpoint aggregate (env : batch_env) (indices : list Z) : BatchResult :=
  match indices with
  | [] => {| total_pdfs := file_count env; successful_conversions := 0;
             failed_conversions := 0; total_pages_converted := 0; errors := [] |}
  | i :: older =>
      record_result (aggregate env older) (file_at env i)
        (convert env (file_at env i))
  end.

(** The indices workers hold: claimed, outcome not yet recorded. *)
Definition held (p : worker_pc) : list Z :=
  match p with
  | W_progress i | W_convert i => [i]
  | _ => []
  end.

Definition in_flight (ws : list worker_pc) : list Z := concat (map held ws).

(** The statement of the specification on cancellation: once the flag is
    raised after index [K] was claimed, no index above [K] is claimed.
    The trace is newest first, so [later] happened after the flag. *)
Definition no_claim_after_cancel (env : batch_env) : Prop :=
  forall schedule later earlier w i c K,
    trace (process_directory env schedule) = later ++ EvCancel :: earlier ->
    K = Z.of_nat (length (claimed_indices earlier)) - 1 ->
    In (EvClaim w i c) later -> i <= K.

(** Environments for examples. *)
Definition sample_convert (path : string) : ConversionResult :=
  if String.eqb path "c.pdf"
  then {| success := false; error_message := "Failed to load PDF document";
          pages_converted := 0 |}
  else {| success := true; error_message := ""; pages_converted := 2 |}.

Definition sample_env (files : list string) (ready : bool) (threads : Z) : batch_env :=
  {| pdf_files := files; output_dir_ready := ready; num_threads_ := threads;
     convert := sample_convert; has_progress_callback := true |}.

Definition worker_round (w : nat) : list label :=
  [L_worker w; L_worker w; L_worker w; L_worker w].

(** *** Examples *)

(** Scenario A of the specification: "a.pdf" has two pages, "b.pdf" has
    three of which the second cannot be created, "c.pdf" does not load.
    No directory creation throws. *)
Definition scenario_A_backend : Backend :=
  {| document := string; page := unit; image := unit;
     load_from_file := fun path => if String.eqb path "c.pdf" then None else Some path;
     is_locked := fun _ => false;
     pages := fun d => if String.eqb d "a.pdf" then 2 else 3;
     create_page := fun d i =>
       if String.eqb d "b.pdf" && (i =? 1) then None else Some tt;
     page_rect_width := fun _ => 595%float;
     page_rect_height := fun _ => 842%float;
     render_page := fun _ _ _ => tt;
     is_valid := fun _ => true;
     image_save := fun _ _ _ => true;
     create_directories := fun _ => Returned false |}.

(** The converter as the workers call it, for a backend whose directory
    creation does not throw. *)
Definition converter_of (b : Backend) (pf : platform) (output_dir : string)
    (options : ConversionOptions float) (pdf_file : string) : ConversionResult :=
  match io_result (convert_pdf b pf pdf_file output_dir options) with
  | Returned r => r
  | Threw _ => {| success := false; error_message := "terminated";
                  pages_converted := 0 |}
  end.

Definition scenario_A_env : batch_env :=
  {| pdf_files := ["a.pdf"; "b.pdf"; "c.pdf"]; output_dir_ready := true;
     num_threads_ := 2;
     convert := converter_of scenario_A_backend (lp64 2) "out" default_options;
     has_progress_callback := false |}.

(** Scenario C of the specification. *)
Definition scenario_C {T} (dpi_value : T) : ConversionOptions T :=
  {| dpi := dpi_value; output_format := "png"; preserve_aspect_ratio := true;
     max_width := 800; max_height := 0 |}.

(** The hardware concurrency is not detected and no count is requested. *)
Definition undetected_cores_env : batch_env :=
  {| pdf_files := ["a.pdf"]; output_dir_ready := true;
     num_threads_ := BatchProcessor_ctor (lp64 0) 0;
     convert := sample_convert; has_progress_callback := false |}.

(** A single worker and three files. *)
Definition one_worker_env : batch_env := sample_env ["a.pdf"; "b.pdf"; "c.pdf"] true 1.

(** One worker claims index 0 and records it, evaluates its loop
    condition, then the flag is raised, and the worker still claims
    index 1. *)
Definition late_claim_schedule : list label :=
  [L_main; L_main; L_main; L_main; L_main] ++ worker_round 0 ++
  [L_worker 0; L_cancel; L_worker 0].

(** A full schedule for two workers and three files: the calling thread
    launches both, they take the files in turn, the calling thread joins. *)
Definition two_worker_schedule : list label :=
  [L_main; L_main; L_main; L_main; L_main; L_main; L_main]
  ++ worker_round 0 ++ worker_round 1 ++ worker_round 0
  ++ worker_round 1 ++ worker_round 0 ++ [L_main].

(** *** Invariants of a run *)

(** While the workers run (and after they are joined): the files were
    found, the output directory was prepared once, every worker was
    spawned once, and the report is the aggregate of the recorded
    outcomes. *)
Definition running (env : batch_env) (s : state) : Prop :=
  pdf_files env <> [] /\ output_dir_ready env = true /\
  ensure_count (trace s) = 1%nat /\
  spawn_count (trace s) = length (workers s) /\
  result s = aggregate env (recorded_indices (trace s)).

Definition idle (s : state) : Prop :=
  workers s = [] /\ spawn_count (trace s) = 0%nat /\
  recorded_indices (trace s) = [].

Definition empty_report (env : batch_env) (msg : string) : BatchResult :=
  push_error (aggregate env []) msg.

(** What holds at each point of [process_directory]. *)
Definition phase_inv (env : batch_env) (s : state) : Prop :=
  match main s with
  | M_find =>
      idle s /\ ensure_count (trace s) = 0%nat /\ result s = result initial_state
  | M_ensure =>
      idle s /\ ensure_count (trace s) = 0%nat /\ pdf_files env <> [] /\
      result s = aggregate env []
  | M_loop i =>
      running env s /\ Z.of_nat (length (workers s)) = i /\
      i <= Z.max 0 (num_threads_ env)
  | M_launch i =>
      running env s /\ Z.of_nat (length (workers s)) = i /\
      i < num_threads_ env
  | M_join =>
      running env s /\
      (cancel_requested_ s = false ->
       Z.of_nat (length (workers s)) = Z.max 0 (num_threads_ env))
  | M_return =>
      (pdf_files env = [] /\ idle s /\ ensure_count (trace s) = 0%nat /\
       result s = empty_report env "No PDF files found in input directory") \/
      (pdf_files env <> [] /\ output_dir_ready env = false /\ idle s /\
       ensure_count (trace s) = 1%nat /\
       result s = empty_report env "Failed to create output directory") \/
      (running env s /\ forallb exited (workers s) = true /\
       (cancel_requested_ s = false ->
        Z.of_nat (length (workers s)) = Z.max 0 (num_threads_ env)))
  end.

(** The claim counter: indices are handed out in order, and every
    claimed index is either recorded or still held by a worker. *)
Definition claim_inv (env : batch_env) (s : state) : Prop :=
  0 <= file_index s /\
  claimed_indices (trace s) =
    rev (seqZ 0 (Z.min (file_index s) (file_count env))) /\
  recorded_indices (trace s) ++ in_flight (workers s)
    ≡ₚ claimed_indices (trace s).

(** Without cancellation a worker leaves only when the list is used up. *)
Definition exit_inv (env : batch_env) (s : state) : Prop :=
  cancel_requested_ s = false ->
  forall w, workers s !! w = Some W_exit -> file_count env <= file_index s.

Definition fetch_pending (p : option worker_pc) : nat :=
  match p with Some W_fetch => 1 | _ => 0 end.

(** A worker claims at most once after the flag is raised: only when its
    loop condition was evaluated before. *)
Definition late_inv (s : state) : Prop :=
  forall w,
    (cancel_requested_ s = false -> late_claims w (trace s) = []) /\
    (length (late_claims w (trace s)) + fetch_pending (workers s !! w) <= 1)%nat.

(** *** Measures and labels of a schedule *)

(** The files that are not claimed yet. *)
Definition remaining (env : batch_env) (s : state) : nat :=
  Z.to_nat (file_count env - file_index s).

(** The labels of worker steps. *)
Definition worker_label (l : label) : Prop := exists w, l = L_worker w.

Definition is_main (l : label) : bool :=
  match l with L_main => true | _ => false end.

Definition main_steps (schedule : list label) : nat :=
  length (List.filter is_main schedule).

(** Where the calling thread stands after [k] of its steps when the run
    ends before any worker is launched. *)
Definition early_pc (env : batch_env) (k : nat) : main_pc :=
  match k with
  | O => M_find
  | S O => match pdf_files env with [] => M_return | _ :: _ => M_ensure end
  | S (S _) => M_return
  end.

(** *** Readings of the converter's results *)

(** The page number written with three digits, for numbers below 1000. *)
Definition zero_pad3 (p : Z) : string :=
  String (digit_char (p / 100))
    (String (digit_char (p / 10 mod 10))
       (String (digit_char (p mod 10)) EmptyString)).

Definition page_succeeded (o : outcome bool) : bool :=
  match o with Returned true => true | _ => false end.

(** The number of page tasks that returned [true]. *)
Definition successes (outcomes : list (outcome bool)) : Z :=
  Z.of_nat (length (List.filter page_succeeded outcomes)).

(** ** Further readings of the converter's calls *)

Definition is_save (c : call) : bool :=
  match c with CallSave _ _ => true | _ => false end.

Definition is_create_directories (c : call) : bool :=
  match c with CallCreateDirectories _ => true | _ => false end.

(** A backend whose renderer yields invalid images only. *)
Definition blank_backend : Backend :=
  {| document := unit; page := unit; image := unit;
     load_from_file := fun _ => Some tt;
     is_locked := fun _ => false;
     pages := fun _ => 2;
     create_page := fun _ _ => Some tt;
     page_rect_width := fun _ => 595%float;
     page_rect_height := fun _ => 842%float;
     render_page := fun _ _ _ => tt;
     is_valid := fun _ => false;
     image_save := fun _ _ _ => true;
     create_directories := fun _ => Returned true |}.

(** ** What a complete run is expected to report

    Read off the list of files alone: how many convert, how many do not,
    the pages of those that do, and the messages of those that do not. *)

Definition converts (env : batch_env) (pdf_file : string) : bool :=
  success (convert env pdf_file).

Definition fails (env : batch_env) (pdf_file : string) : bool :=
  negb (converts env pdf_file).

Definition error_entry (env : batch_env) (pdf_file : string) : string :=
  pdf_file +:+ ": " +:+ error_message (convert env pdf_file).

Definition pages_of (env : batch_env) (files : list string) : Z :=
  fold_right Z.add 0
    (map (fun f => pages_converted (convert env f)) (List.filter (converts env) files)).

Definition expected_report (env : batch_env) (files : list string) : BatchResult :=
  {| total_pdfs := file_count env;
     successful_conversions := Z.of_nat (length (List.filter (converts env) files));
     failed_conversions := Z.of_nat (length (List.filter (fails env) files));
     total_pages_converted := pages_of env files;
     errors := map (error_entry env) (List.filter (fails env) files) |}.

(** Two reports that agree up to the order of their error entries. *)
Definition same_report (r r' : BatchResult) : Prop :=
  total_pdfs r = total_pdfs r' /\
  successful_conversions r = successful_conversions r' /\
  failed_conversions r = failed_conversions r' /\
  total_pages_converted r = total_pages_converted r' /\
  errors r ≡ₚ errors r'.

(** ** Readings of the progress callbacks *)

Definition progress_infos (t : list event) : list ProgressInfo :=
  omap (fun e => match e with EvProgress _ info => Some info | _ => None end) t.

(** The indices the callback was told about: [current_file] is the
    claimed index plus one. *)
Definition announced_indices (t : list event) : list Z :=
  map (fun info => current_file info - 1) (progress_infos t).

(** The indices claimed by workers that have not reached the callback. *)
Definition unannounced (p : worker_pc) : list Z :=
  match p with W_progress i => [i] | _ => [] end.

Definition awaiting (ws : list worker_pc) : list Z := concat (map unannounced ws).

Definition info_ok (env : batch_env) (info : ProgressInfo) : Prop :=
  1 <= current_file info <= total_files info /\
  total_files info = file_count env /\
  current_filename info = path_stem (file_at env (current_file info - 1)).

Definition progress_inv (env : batch_env) (s : state) : Prop :=
  Forall (info_ok env) (progress_infos (trace s)) /\
  (forall i, i ∈ awaiting (workers s) -> 0 <= i < file_count env) /\
  if has_progress_callback env
  then announced_indices (trace s) ++ awaiting (workers s)
         ≡ₚ claimed_indices (trace s)
  else progress_infos (trace s) = [].

(** With a callback, a file is announced before its conversion starts. *)
Definition convert_inv (env : batch_env) (s : state) : Prop :=
  has_progress_callback env = true ->
  forall w i, workers s !! w = Some (W_convert i) ->
    i ∈ announced_indices (trace s).

(** ** [FileUtils] ([src/file_utils.cpp])

    The filesystem as the functions see it. A status query may throw;
    [fs_entries] lists what the recursive directory iterator yields and
    the loop examines before the iteration ends or throws (the loop's
    [catch] keeps what was collected until then). *)

Record dir_entry := {
  entry_path : string;
  entry_is_regular_file : bool
}.

Record FileSystem := {
  fs_exists : string -> outcome bool;
  fs_is_directory : string -> outcome bool;
  fs_is_regular_file : string -> outcome bool;
  fs_entries : string -> list dir_entry;
  fs_create_directories : string -> outcome bool
}.

(** [a && b] on calls that may throw: [b] is not called when [a] is false. *)
Definition and_then (a b : outcome bool) : outcome bool :=
  match a with
  | Returned true => b
  | Returned false => Returned false
  | Threw e => Threw e
  end.

(** [FileUtils::is_directory] and [FileUtils::file_exists]. *)
Definition FileUtils_is_directory (fs : FileSystem) (path : string) : outcome bool :=
  and_then (fs_exists fs path) (fs_is_directory fs path).

Definition FileUtils_file_exists (fs : FileSystem) (path : string) : outcome bool :=
  and_then (fs_exists fs path) (fs_is_regular_file fs path).

(** [FileUtils::create_directories]: a [filesystem_error] becomes [false]. *)
Definition FileUtils_create_directories (fs : FileSystem) (path : string) : outcome bool :=
  match fs_create_directories fs path with
  | Threw filesystem_error => Returned false
  | other => other
  end.

(** [FileUtils::ensure_output_directory]. *)
Definition ensure_output_directory (fs : FileSystem) (output_dir : string) : outcome bool :=
  match FileUtils_is_directory fs output_dir with
  | Threw e => Threw e
  | Returned true => Returned true
  | Returned false =>
      match fs_create_directories fs output_dir with
      | Returned _ => Returned true
      | Threw filesystem_error => Returned false
      | Threw e => Threw e
      end
  end.

(** [FileUtils::get_filename_without_extension], [get_parent_directory]
    and [join_path]. *)
Definition get_filename_without_extension (filepath : string) : string :=
  path_stem filepath.

Definition get_parent_directory (filepath : string) : string :=
  path_parent filepath.

Definition join_path (dir filename : string) : string := path_append dir filename.

(** The suffix of [s] that starts at its last period, when it has one. *)
Fixpoint from_last_dot (s : string) : option string :=
  match s with
  | EmptyString => None
  | String c s' =>
      match from_last_dot s' with
      | Some e => Some e
      | None => if Ascii.eqb c dot then Some s else None
      end
  end.

(** [path::extension()]: from the last period of the filename on; a
    leading period does not start an extension, and "." and ".." have
    none. *)
Definition path_extension (p : string) : string :=
  let f := path_filename p in
  if String.eqb f "." || String.eqb f ".." then EmptyString
  else match f with
       | EmptyString => EmptyString
       | String _ rest =>
           match from_last_dot rest with
           | Some e => e
           | None => EmptyString
           end
       end.

(** [::tolower] in the "C" locale. *)
Definition ascii_tolower (c : ascii) : ascii :=
  let n := nat_of_ascii c in
  if (65 <=? n)%nat && (n <=? 90)%nat then ascii_of_nat (n + 32) else c.

Fixpoint string_tolower (s : string) : string :=
  match s with
  | EmptyString => EmptyString
  | String c s' => String (ascii_tolower c) (string_tolower s')
  end.

(** The test of the loop body of [find_pdf_files]. *)
Definition is_pdf_entry (e : dir_entry) : bool :=
  entry_is_regular_file e &&
  String.eqb (string_tolower (path_extension (entry_path e))) ".pdf".

(** [FileUtils::find_pdf_files]. *)
Definition find_pdf_files (fs : FileSystem) (directory : string) : outcome (list string) :=
  match FileUtils_is_directory fs directory with
  | Threw e => Threw e
  | Returned false => Returned []
  | Returned true =>
      Returned (map entry_path (List.filter is_pdf_entry (fs_entries fs directory)))
  end.

(** A directory "in" with a PDF, an upper-case PDF in a subdirectory, a
    directory named like a PDF, a hidden file named ".pdf" and a text
    file. *)
Definition sample_fs : FileSystem :=
  {| fs_exists := fun p => Returned (String.eqb p "in");
     fs_is_directory := fun p => Returned (String.eqb p "in");
     fs_is_regular_file := fun _ => Returned false;
     fs_entries := fun _ =>
       [ {| entry_path := "in/a.pdf"; entry_is_regular_file := true |};
         {| entry_path := "in/sub"; entry_is_regular_file := false |};
         {| entry_path := "in/sub/B.PDF"; entry_is_regular_file := true |};
         {| entry_path := "in/dir.pdf"; entry_is_regular_file := false |};
         {| entry_path := "in/.pdf"; entry_is_regular_file := true |};
         {| entry_path := "in/notes.txt"; entry_is_regular_file := true |} ];
     fs_create_directories := fun _ => Returned true |}.

(** A string without path separator. *)
Fixpoint no_slash (s : string) : bool :=
  match s with
  | EmptyString => true
  | String c s' => negb (Ascii.eqb c slash) && no_slash s'
  end.

(** ** The command line ([src/main.cpp])

    [std::stoi] and [std::stod] are library functions; [None] stands for
    the exception they throw on text that is no number, which nothing in
    [main] catches. *)

Record Numbers := {
  stoi : string -> option Z;
  stod : string -> option float
}.

(** The local variables of [main] that the argument loop sets. *)
Record cli_options := {
  cli_input_dir : string;
  cli_output_dir : string;
  cli_num_threads : Z;
  cli_dpi : float;
  cli_format : string;
  cli_max_width : Z;
  cli_max_height : Z;
  cli_preserve_aspect_ratio : bool;
  cli_verbose : bool;
  cli_quiet : bool
}.

Definition cli_defaults : cli_options :=
  {| cli_input_dir := ""; cli_output_dir := ""; cli_num_threads := 0;
     cli_dpi := 300%float; cli_format := "png";
     cli_max_width := 0; cli_max_height := 0;
     cli_preserve_aspect_ratio := true;
     cli_verbose := false; cli_quiet := false |}.

Inductive parse_result :=
  | ParsedHelp                        (* usage printed, [return 0] *)
  | ParsedUnknownOption (arg : string) (* usage printed, [return 1] *)
  | ParsedThrew                       (* [stoi] or [stod] threw *)
  | Parsed (o : cli_options).

(** [arg[0] == '-']; the first character of an empty string is the
    terminating null. *)
Definition starts_with_dash (arg : string) : bool :=
  match arg with
  | String c _ => Ascii.eqb c "-"
  | EmptyString => false
  end.

Definition is_empty (s : string) : bool :=
  match s with EmptyString => true | _ => false end.

Definition set_positional (o : cli_options) (arg : string) : cli_options :=
  if is_empty (cli_input_dir o) then
    {| cli_input_dir := arg; cli_output_dir := cli_output_dir o;
       cli_num_threads := cli_num_threads o; cli_dpi := cli_dpi o;
       cli_format := cli_format o; cli_max_width := cli_max_width o;
       cli_max_height := cli_max_height o;
       cli_preserve_aspect_ratio := cli_preserve_aspect_ratio o;
       cli_verbose := cli_verbose o; cli_quiet := cli_quiet o |}
  else if is_empty (cli_output_dir o) then
    {| cli_input_dir := cli_input_dir o; cli_output_dir := arg;
       cli_num_threads := cli_num_threads o; cli_dpi := cli_dpi o;
       cli_format := cli_format o; cli_max_width := cli_max_width o;
       cli_max_height := cli_max_height o;
       cli_preserve_aspect_ratio := cli_preserve_aspect_ratio o;
       cli_verbose := cli_verbose o; cli_quiet := cli_quiet o |}
  else o.

Definition set_flags (o : cli_options) (verbose quiet preserve : bool) : cli_options :=
  {| cli_input_dir := cli_input_dir o; cli_output_dir := cli_output_dir o;
     cli_num_threads := cli_num_threads o; cli_dpi := cli_dpi o;
     cli_format := cli_format o; cli_max_width := cli_max_width o;
     cli_max_height := cli_max_height o;
     cli_preserve_aspect_ratio := preserve;
     cli_verbose := verbose; cli_quiet := quiet |}.

Definition set_numbers (o : cli_options) (threads : Z) (dpi_value : float)
    (format : string) (width height : Z) : cli_options :=
  {| cli_input_dir := cli_input_dir o; cli_output_dir := cli_output_dir o;
     cli_num_threads := threads; cli_dpi := dpi_value;
     cli_format := format; cli_max_width := width; cli_max_height := height;
     cli_preserve_aspect_ratio := cli_preserve_aspect_ratio o;
     cli_verbose := cli_verbose o; cli_quiet := cli_quiet o |}.

Definition one_of (arg a b : string) : bool := String.eqb arg a || String.eqb arg b.

(** The argument loop of [main], from [argv[1]] on. An option that takes
    a value and stands last is skipped. *)
Fixpoint parse_arguments (nums : Numbers) (args : list string) (o : cli_options)
    : parse_result :=
  match args with
  | [] => Parsed o
  | arg :: rest =>
      if one_of arg "-h" "--help" then ParsedHelp
      else if one_of arg "-v" "--verbose" then
        parse_arguments nums rest
          (set_flags o true (cli_quiet o) (cli_preserve_aspect_ratio o))
      else if one_of arg "-q" "--quiet" then
        parse_arguments nums rest
          (set_flags o (cli_verbose o) true (cli_preserve_aspect_ratio o))
      else if one_of arg "-j" "--jobs" then
        match rest with
        | value :: rest' =>
            match stoi nums value with
            | Some n =>
                parse_arguments nums rest'
                  (set_numbers o n (cli_dpi o) (cli_format o)
                     (cli_max_width o) (cli_max_height o))
            | None => ParsedThrew
            end
        | [] => Parsed o
        end
      else if one_of arg "-d" "--dpi" then
        match rest with
        | value :: rest' =>
            match stod nums value with
            | Some d =>
                parse_arguments nums rest'
                  (set_numbers o (cli_num_threads o) d (cli_format o)
                     (cli_max_width o) (cli_max_height o))
            | None => ParsedThrew
            end
        | [] => Parsed o
        end
      else if one_of arg "-f" "--format" then
        match rest with
        | value :: rest' =>
            parse_arguments nums rest'
              (set_numbers o (cli_num_threads o) (cli_dpi o) value
                 (cli_max_width o) (cli_max_height o))
        | [] => Parsed o
        end
      else if String.eqb arg "--max-width" then
        match rest with
        | value :: rest' =>
            match stoi nums value with
            | Some n =>
                parse_arguments nums rest'
                  (set_numbers o (cli_num_threads o) (cli_dpi o) (cli_format o)
                     n (cli_max_height o))
            | None => ParsedThrew
            end
        | [] => Parsed o
        end
      else if String.eqb arg "--max-height" then
        match rest with
        | value :: rest' =>
            match stoi nums value with
            | Some n =>
                parse_arguments nums rest'
                  (set_numbers o (cli_num_threads o) (cli_dpi o) (cli_format o)
                     (cli_max_width o) n)
            | None => ParsedThrew
            end
        | [] => Parsed o
        end
      else if String.eqb arg "--no-aspect-ratio" then
        parse_arguments nums rest (set_flags o (cli_verbose o) (cli_quiet o) false)
      else if starts_with_dash arg then ParsedUnknownOption arg
      else parse_arguments nums rest (set_positional o arg)
  end.

(** What [main] does before it runs the batch. *)
Inductive startup :=
  | Stop (code : Z)            (* [return code] *)
  | Crash                      (* an exception left [main] *)
  | Start (o : cli_options).   (* the batch processor is run *)

Definition startup_of (nums : Numbers) (fs : FileSystem) (args : list string) : startup :=
  match parse_arguments nums args cli_defaults with
  | ParsedHelp => Stop 0
  | ParsedUnknownOption _ => Stop 1
  | ParsedThrew => Crash
  | Parsed o =>
      if is_empty (cli_input_dir o) || is_empty (cli_output_dir o) then Stop 1
      else match FileUtils_is_directory fs (cli_input_dir o) with
           | Threw _ => Crash
           | Returned false => Stop 1
           | Returned true => Start o
           end
  end.

(** The conversion options [main] builds. *)
Definition options_of (o : cli_options) : ConversionOptions float :=
  {| dpi := cli_dpi o; output_format := cli_format o;
     preserve_aspect_ratio := cli_preserve_aspect_ratio o;
     max_width := cli_max_width o; max_height := cli_max_height o |}.

(** The value [main] returns after the batch. *)
Definition exit_code (r : BatchResult) : Z :=
  if successful_conversions r =? 0 then 1 else 0.

(** What [main] hands to [process_directory]: the files found in the
    input directory, the outcome of preparing the output directory, the
    thread count the constructor leaves, and the progress callback
    unless [--quiet]. *)
Definition main_env (pf : platform) (o : cli_options) (files : list string)
    (ready : bool) (convert_file : string -> ConversionResult) : batch_env :=
  {| pdf_files := files; output_dir_ready := ready;
     num_threads_ := BatchProcessor_ctor pf (cli_num_threads o);
     convert := convert_file;
     has_progress_callback := negb (cli_quiet o) |}.

(** Decimal numbers for the examples. *)
Definition sample_numbers : Numbers :=
  {| stoi := fun s => if String.eqb s "4" then Some 4
                      else if String.eqb s "1920" then Some 1920 else None;
     stod := fun s => if String.eqb s "200" then Some 200%float else None |}.

(** What the argument loop keeps true of the two directories: neither
    starts with a dash, and the output directory is set after the input
    directory. *)
Definition directory_like (s : string) : Prop :=
  s = EmptyString \/ starts_with_dash s = false.

Definition dirs_ok (o : cli_options) : Prop :=
  directory_like (cli_input_dir o) /\ directory_like (cli_output_dir o) /\
  (cli_output_dir o <> EmptyString -> cli_input_dir o <> EmptyString).

(** An argument that is no option. *)
Definition plain (arg : string) : Prop :=
  arg <> EmptyString /\ starts_with_dash arg = false.

Definition with_directories (o : cli_options) (input_dir output_dir : string)
    : cli_options :=
  {| cli_input_dir := input_dir; cli_output_dir := output_dir;
     cli_num_threads := cli_num_threads o; cli_dpi := cli_dpi o;
     cli_format := cli_format o; cli_max_width := cli_max_width o;
     cli_max_height := cli_max_height o;
     cli_preserve_aspect_ratio := cli_preserve_aspect_ratio o;
     cli_verbose := cli_verbose o; cli_quiet := cli_quiet o |}.

(** ** The progress bar ([src/progress_bar.cpp])

    Of what [display] writes, only the count in "current/total" is kept
    here ([bar_shown], newest first); the percentage, the bar and the
    times are [double] values formatted by the stream library. *)

Record ProgressBar := {
  bar_total : Z;
  bar_current : Z;
  bar_finished : bool;
  bar_description : string;
  bar_shown : list Z
}.

(** An [int] after an addition of the atomic counter, which wraps. *)
Definition wrap_int (z : Z) : Z := int_of_unsigned (z mod 2 ^ 32).

(** [ProgressBar::display]: the count shown is capped at the total. *)
Definition display (bar : ProgressBar) : ProgressBar :=
  let current :=
    if bar_total bar <? bar_current bar then bar_total bar else bar_current bar in
  {| bar_total := bar_total bar; bar_current := bar_current bar;
     bar_finished := bar_finished bar; bar_description := bar_description bar;
     bar_shown := current :: bar_shown bar |}.

(** The constructor. *)
Definition ProgressBar_new (total : Z) : ProgressBar :=
  display {| bar_total := total; bar_current := 0; bar_finished := false;
             bar_description := "Processing"; bar_shown := [] |}.

(** [ProgressBar::update]. *)
Definition update (bar : ProgressBar) (increment : Z) : ProgressBar :=
  if bar_finished bar then bar
  else display {| bar_total := bar_total bar;
                  bar_current := wrap_int (bar_current bar + increment);
                  bar_finished := bar_finished bar;
                  bar_description := bar_description bar;
                  bar_shown := bar_shown bar |}.

(** [ProgressBar::finish]; the destructor calls it. *)
Definition finish (bar : ProgressBar) : ProgressBar :=
  if bar_finished bar then bar
  else display {| bar_total := bar_total bar; bar_current := bar_total bar;
                  bar_finished := true;
                  bar_description := bar_description bar;
                  bar_shown := bar_shown bar |}.

(** [ProgressBar::set_description]. *)
Definition set_description (bar : ProgressBar) (desc : string) : ProgressBar :=
  {| bar_total := bar_total bar; bar_current := bar_current bar;
     bar_finished := bar_finished bar; bar_description := desc;
     bar_shown := bar_shown bar |}.

Inductive bar_call :=
  | BarUpdate (increment : Z)
  | BarFinish
  | BarSetDescription (desc : string).

Definition bar_step (bar : ProgressBar) (c : bar_call) : ProgressBar :=
  match c with
  | BarUpdate increment => update bar increment
  | BarFinish => finish bar
  | BarSetDescription desc => set_description bar desc
  end.

Definition bar_run (total : Z) (calls : list bar_call) : ProgressBar :=
  fold_left bar_step calls (ProgressBar_new total).

(** What every sequence of calls keeps true. *)
Definition bar_inv (total : Z) (bar : ProgressBar) : Prop :=
  bar_total bar = total /\
  Forall (fun shown => shown <= total) (bar_shown bar) /\
  (bar_finished bar = true ->
   bar_current bar = total /\ exists older, bar_shown bar = total :: older).

(* ===================================================================== *)
(** * Part II. Properties                                                 *)
(* ===================================================================== *)

Ltac state_simpl :=
  cbn [main workers file_index cancel_requested_ result trace
       set_main set_result set_worker log_event cancel_processing] in *.

Ltac trace_simpl :=
  unfold spawn_count, ensure_count, claimed_indices, recorded_indices,
    late_claims in *;
  cbn [List.filter omap list_omap is_spawn is_ensure length] in *.

(** ** Output file names *)

Lemma decimal_digits_length_le fuel n acc :
  (String.length (decimal_digits fuel n acc) <= String.length acc + fuel)%nat.
Proof.
  revert n acc. induction fuel as [|fuel IH]; intros n acc; simpl; [lia|].
  destruct (n <? 10); simpl; [lia|].
  specialize (IH (n / 10) (String (digit_char (n mod 10)) acc)). simpl in IH. lia.
Qed.

Lemma decimal_digits_length_ge fuel n acc :
  (String.length acc <= String.length (decimal_digits fuel n acc))%nat.
Proof.
  revert n acc. induction fuel as [|fuel IH]; intros n acc; simpl; [lia|].
  destruct (n <? 10); simpl; [lia|].
  specialize (IH (n / 10) (String (digit_char (n mod 10)) acc)). simpl in IH. lia.
Qed.

Lemma decimal_digits_step fuel n acc :
  decimal_digits (S fuel) n acc =
    if n <? 10 then String (digit_char (n mod 10)) acc
    else decimal_digits fuel (n / 10) (String (digit_char (n mod 10)) acc).
Proof. reflexivity. Qed.

Lemma to_string_size_large p :
  1000 <= p -> 4 <= string_size (to_string p) <= 10.
Proof.
  intros Hp. unfold to_string, string_size.
  destruct (Z.ltb_spec p 0) as [?|_]; [lia|].
  split.
  - assert (100 <= p / 10) by (apply Z.div_le_lower_bound; lia).
    assert (10 <= p / 10 / 10) by (apply Z.div_le_lower_bound; lia).
    rewrite (decimal_digits_step 9).
    destruct (Z.ltb_spec p 10); [lia|].
    rewrite (decimal_digits_step 8).
    destruct (Z.ltb_spec (p / 10) 10); [lia|].
    rewrite (decimal_digits_step 7).
    destruct (Z.ltb_spec (p / 10 / 10) 10); [lia|].
    rewrite (decimal_digits_step 6).
    match goal with
    | |- context [decimal_digits ?f ?n ?a] =>
        pose proof (decimal_digits_length_ge f n a) as Hge
    end.
    destruct (p / 10 / 10 / 10 <? 10); simpl in *; lia.
  - pose proof (decimal_digits_length_le 10 p ""). simpl in *. lia.
Qed.

Lemma to_string_small p :
  1 <= p <= 999 ->
  exists zeros,
    zeros +:+ to_string p = zero_pad3 p /\
    zeros = repeat_char (Z.to_nat (3 - string_size (to_string p))) "0".
Proof.
  intros Hp. unfold to_string, zero_pad3.
  destruct (Z.ltb_spec p 0) as [?|_]; [lia|].
  cbn [decimal_digits].
  destruct (Z.ltb_spec p 10).
  - exists "00". rewrite !Z.div_small by lia. rewrite (Z.mod_small 0) by lia.
    split; reflexivity.
  - assert (1 <= p / 10 <= 99) by (Z.div_mod_to_equations; lia).
    destruct (Z.ltb_spec (p / 10) 10).
    + exists "0". rewrite (Z.div_small p 100) by (Z.div_mod_to_equations; lia).
      rewrite (Z.mod_small (p / 10)) by lia. split; reflexivity.
    + assert (1 <= p / 10 / 10 <= 9) by (Z.div_mod_to_equations; lia).
      destruct (Z.ltb_spec (p / 10 / 10) 10); [|lia].
      exists "". replace (p / 100) with (p / 10 / 10) by (Z.div_mod_to_equations; lia).
      rewrite (Z.mod_small (p / 10 / 10)) by lia.
      split; reflexivity.
Qed.

Lemma append_assoc (a b c : string) : a +:+ b +:+ c = (a +:+ b) +:+ c.
Proof.
  induction a as [|x a IH]; [reflexivity|].
  change (String x (a +:+ b +:+ c) = String x ((a +:+ b) +:+ c)).
  f_equal. exact IH.
Qed.

Lemma two_pow_size_bits pf : platform_ok pf -> 10 < 2 ^ size_bits pf.
Proof. intros (? & ? & ?). lia. Qed.

(** For page numbers 1 to 999 the name is stem, "_page_", the number on
    three digits, a period and the extension. *)
Lemma generate_output_filename_in_range pf pdf_path p extension :
  platform_ok pf -> 1 <= p <= 999 ->
  generate_output_filename pf pdf_path p extension =
    Returned (path_stem pdf_path +:+ "_page_" +:+ zero_pad3 p +:+ "." +:+ extension).
Proof.
  intros Hpf Hp. pose proof (two_pow_size_bits pf Hpf) as Hbits.
  destruct Hpf as (_ & Hmax & _).
  destruct (to_string_small p Hp) as (zeros & Hpad & Hzeros).
  assert (1 <= string_size (to_string p) <= 3) as Hlen.
  { unfold to_string, string_size. destruct (Z.ltb_spec p 0); [lia|].
    pose proof (decimal_digits_length_le 10 p "").
    cbn [decimal_digits].
    destruct (p <? 10); [simpl; lia|].
    destruct (p / 10 <? 10); [simpl; lia|].
    destruct (Z.ltb_spec (p / 10 / 10) 10); [simpl; lia|].
    assert (p / 10 / 10 <= 9); [|lia].
    Z.div_mod_to_equations; lia. }
  unfold generate_output_filename, string_fill, size_t_sub.
  rewrite Z.mod_small by lia.
  destruct (Z.ltb_spec (string_max_size pf) (3 - string_size (to_string p))); [lia|].
  rewrite <- Hzeros. do 3 f_equal.
  rewrite <- Hpad. apply append_assoc.
Qed.

(** From page number 1000 on, the padding count wraps around and the
    string constructor throws. *)
Lemma generate_output_filename_overflow pf pdf_path p extension :
  platform_ok pf -> 1000 <= p ->
  generate_output_filename pf pdf_path p extension = Threw length_error.
Proof.
  intros (Hbits & Hmax & Hlim) Hp.
  pose proof (to_string_size_large p Hp) as Hlen.
  unfold generate_output_filename, string_fill, size_t_sub.
  set (len := string_size (to_string p)) in *.
  replace ((3 - len) mod 2 ^ size_bits pf) with (2 ^ size_bits pf + 3 - len).
  - destruct (Z.ltb_spec (string_max_size pf) (2 ^ size_bits pf + 3 - len)); [reflexivity|lia].
  - apply Z.mod_unique with (q := -1); lia.
Qed.

Lemma lp64_ok cores : platform_ok (lp64 cores).
Proof. unfold platform_ok; simpl. lia. Qed.

(** Claim C6, at the boundary the specification itself points at: page
    1000 of "report.pdf" gets no file name; the call throws
    [std::length_error] instead of returning "report_page_1000.png". *)
Theorem generate_output_filename_page_1000 cores :
  generate_output_filename (lp64 cores) "report.pdf" 1000 "png" = Threw length_error.
Proof. apply generate_output_filename_overflow; [apply lp64_ok|lia]. Qed.

(** Page 7 of "report.pdf" as "png". *)
Example generate_output_filename_report_7 cores :
  generate_output_filename (lp64 cores) "report.pdf" 7 "png" =
    Returned "report_page_007.png".
Proof. reflexivity. Qed.

(** ** The converter *)

Lemma successes_cons o outcomes :
  successes (o :: outcomes) =
    (if page_succeeded o then 1 else 0) + successes outcomes.
Proof.
  unfold successes. simpl. destruct (page_succeeded o); simpl; lia.
Qed.

Lemma successes_bounds outcomes :
  0 <= successes outcomes <= Z.of_nat (length outcomes).
Proof.
  induction outcomes as [|o outcomes IH]; [unfold successes; simpl; lia|].
  rewrite successes_cons. destruct (page_succeeded o); simpl length; lia.
Qed.

(** The collecting loop adds the number of successful tasks to the
    counter and touches nothing else. *)
Lemma collect_results_spec futures result :
  collect_results futures result =
    {| success := success result; error_message := error_message result;
       pages_converted := pages_converted result + successes futures |}.
Proof.
  revert result. induction futures as [|o futures IH]; intros result.
  - unfold successes. simpl. rewrite Z.add_0_r. now destruct result.
  - simpl collect_results. rewrite IH, successes_cons.
    destruct o as [[|]|e]; simpl; f_equal; lia.
Qed.

Lemma page_task_log b pf doc pdf_path output_dir options i :
  exists rest,
    io_log (page_task b pf doc pdf_path output_dir options i) =
      CallCreatePage i :: rest.
Proof.
  unfold page_task, io_bind, io_call, io_log.
  destruct (create_page b doc i) as [p|]; simpl.
  - match goal with |- context [let '(l, r) := ?m in _] => destruct m end.
    simpl. eauto.
  - eauto.
Qed.

Lemma page_tasks_length b pf doc pdf_path output_dir options :
  Z.of_nat (length (page_tasks b pf doc pdf_path output_dir options)) =
    Z.max 0 (pages b doc).
Proof. unfold page_tasks. rewrite length_map, length_seqZ. lia. Qed.

Lemma page_tasks_log b pf doc pdf_path output_dir options i :
  0 <= i < pages b doc ->
  In (CallCreatePage i)
     (concat (map io_log (page_tasks b pf doc pdf_path output_dir options))).
Proof.
  intros Hi. apply in_concat.
  destruct (page_task_log b pf doc pdf_path output_dir options i) as [rest Hlog].
  exists (CallCreatePage i :: rest). split; [|now left].
  rewrite <- Hlog. apply in_map. unfold page_tasks. apply in_map.
  apply list_elem_of_In, elem_of_seqZ. lia.
Qed.

(** Claim C2: when the document loads, [convert_pdf] launches one task
    per page, all of them run whatever the others do, and it returns
    with [pages_converted] the number [S] of successful tasks and
    [success] exactly when [S > 0]; with [S = 0] (also for a document
    without pages) the result is a failure with its message. *)
Theorem convert_pdf_counts_successes b pf pdf_path output_dir options d created :
  load_from_file b pdf_path = Some d ->
  is_locked b d = false ->
  create_directories b output_dir = Returned created ->
  let tasks := page_tasks b pf d pdf_path output_dir options in
  let P := Z.max 0 (pages b d) in
  let S := successes (map io_result tasks) in
  Z.of_nat (length tasks) = P /\
  0 <= S <= P /\
  (forall i, 0 <= i < pages b d ->
     In (CallCreatePage i) (io_log (convert_pdf b pf pdf_path output_dir options))) /\
  exists r,
    io_result (convert_pdf b pf pdf_path output_dir options) = Returned r /\
    pages_converted r = S /\
    success r = (0 <? S) /\
    (S = 0 -> success r = false /\
              error_message r = "No pages were successfully converted").
Proof.
  intros Hload Hlock Hdir tasks P S.
  assert (Z.of_nat (length tasks) = P) as Hlen by apply page_tasks_length.
  split; [exact Hlen|]. split.
  { pose proof (successes_bounds (map io_result tasks)) as Hb.
    rewrite length_map in Hb. fold S in Hb. lia. }
  unfold convert_pdf, load_document, io_bind, io_call, io_lift, io_ret.
  rewrite Hload, Hlock, Hdir. fold tasks.
  rewrite collect_results_spec. cbn [pages_converted success error_message].
  rewrite Z.add_0_l. fold S. split.
  - intros i Hi. cbn [io_log fst]. right. right.
    now apply page_tasks_log.
  - cbn [io_result snd]. destruct (Z.ltb_spec 0 S) as [Hpos|Hzero].
    + eexists. split; [reflexivity|]. cbn.
      split; [reflexivity|]. split; [reflexivity|]. lia.
    + eexists. split; [reflexivity|]. cbn.
      split; [reflexivity|]. split; [reflexivity|]. intros _. split; reflexivity.
Qed.

Lemma convert_pdf_witness :
  exists r,
    io_result (convert_pdf (sample_backend 3 1) (lp64 4) "b.pdf" "out" default_options)
      = Returned r /\ pages_converted r = 2 /\ success r = true.
Proof.
  destruct (convert_pdf_counts_successes (sample_backend 3 1) (lp64 4)
              "b.pdf" "out" default_options tt false
              eq_refl eq_refl eq_refl) as (_ & _ & _ & r & Hr & Hpages & Hsucc & _).
  exists r. split; [exact Hr|]. split; [exact Hpages|exact Hsucc].
Defined.

(** A document that does not load: a failed result, no task launched. *)
Lemma convert_pdf_load_failure b pf pdf_path output_dir options :
  (load_from_file b pdf_path = None \/
   exists d, load_from_file b pdf_path = Some d /\ is_locked b d = true) ->
  convert_pdf b pf pdf_path output_dir options =
    ([CallLoad pdf_path],
     Returned {| success := false; error_message := "Failed to load PDF document";
                 pages_converted := 0 |}).
Proof.
  intros [Hnone|(d & Hsome & Hlock)];
    unfold convert_pdf, load_document, io_bind, io_call, io_ret.
  - now rewrite Hnone.
  - now rewrite Hsome, Hlock.
Qed.

(** Page numbers from 1000 on never convert: the task throws while it
    builds the file name, and the collecting loop drops the exception. *)
Lemma page_task_beyond_999 b pf doc pdf_path output_dir options i :
  platform_ok pf -> 999 <= i ->
  io_result (page_task b pf doc pdf_path output_dir options i) <> Returned true.
Proof.
  intros Hpf Hi. unfold page_task, io_bind, io_call, io_lift, io_ret, io_result.
  destruct (create_page b doc i) as [p|]; simpl; [|discriminate].
  rewrite generate_output_filename_overflow by (assumption || lia).
  simpl. discriminate.
Qed.

(** Claim C9: with a page number outside [1 .. pages], [convert_page]
    returns the failure "Invalid page number" with no page converted,
    and the only call it made is the load: no page was created, rendered
    or saved. *)
Theorem convert_page_invalid_page_number b pdf_path page_number output_path options d :
  load_from_file b pdf_path = Some d ->
  is_locked b d = false ->
  page_number < 1 \/ pages b d < page_number ->
  convert_page b pdf_path page_number output_path options =
    ([CallLoad pdf_path],
     Returned {| success := false; error_message := "Invalid page number";
                 pages_converted := 0 |}).
Proof.
  intros Hload Hlock Hrange.
  unfold convert_page, load_document, io_bind, io_call, io_ret.
  rewrite Hload, Hlock.
  destruct (Z.ltb_spec page_number 1), (Z.ltb_spec (pages b d) page_number);
    simpl; (reflexivity || lia).
Qed.

Lemma convert_page_invalid_witness :
  convert_page (sample_backend 3 1) "a.pdf" 4 "out/a.png" default_options =
    ([CallLoad "a.pdf"],
     Returned {| success := false; error_message := "Invalid page number";
                 pages_converted := 0 |}).
Proof.
  apply (convert_page_invalid_page_number (sample_backend 3 1) "a.pdf" 4
           "out/a.png" default_options tt eq_refl eq_refl).
  right. simpl. lia.
Defined.

#[local] Arguments save_page_as_image : simpl never.

Lemma save_page_as_image_cases b pg output_path options :
  exists l o, save_page_as_image b pg output_path options = (l, o).
Proof. destruct (save_page_as_image b pg output_path options); eauto. Qed.

(** Claim C10: a [ConversionResult] returned by [convert_pdf] or by
    [convert_page] is a success exactly when its error message is
    empty. *)
Theorem success_iff_no_error_message b pf pdf_path output_dir page_number output_path options r :
  io_result (convert_pdf b pf pdf_path output_dir options) = Returned r \/
  io_result (convert_page b pdf_path page_number output_path options) = Returned r ->
  success r = true <-> error_message r = "".
Proof.
  intros [Hr|Hr].
  - unfold convert_pdf, load_document, io_bind, io_call, io_lift, io_ret, io_result in Hr.
    destruct (load_from_file b pdf_path) as [d|]; simpl in Hr.
    + destruct (is_locked b d); simpl in Hr.
      * injection Hr as <-. simpl. split; discriminate.
      * destruct (create_directories b output_dir); simpl in Hr; [|discriminate].
        rewrite collect_results_spec in Hr. simpl in Hr.
        destruct (0 <? _); injection Hr as <-; simpl; split; (reflexivity || discriminate).
    + injection Hr as <-. simpl. split; discriminate.
  - unfold convert_page, load_document, io_bind, io_call, io_ret, io_result in Hr.
    destruct (load_from_file b pdf_path) as [d|]; simpl in Hr.
    + destruct (is_locked b d); simpl in Hr.
      * injection Hr as <-. simpl. split; discriminate.
      * destruct ((page_number <? 1) || (pages b d <? page_number)); simpl in Hr.
        { injection Hr as <-. simpl. split; discriminate. }
        destruct (create_page b d (page_number - 1)) as [p|]; simpl in Hr.
        { destruct (save_page_as_image_cases b (Some p) output_path options)
            as (l & o & Hsave).
          rewrite Hsave in Hr. destruct o as [[|]|e]; simpl in Hr;
            try discriminate; injection Hr as <-; simpl; split;
            (reflexivity || discriminate). }
        injection Hr as <-. simpl. split; discriminate.
    + injection Hr as <-. simpl. split; discriminate.
Qed.

Lemma success_iff_no_error_message_witness :
  success {| success := true; error_message := ""; pages_converted := 2 |} = true <->
  error_message {| success := true; error_message := ""; pages_converted := 2 |} = "".
Proof.
  apply (success_iff_no_error_message (sample_backend 3 1) (lp64 4) "b.pdf" "out"
           1 "out/b.png" default_options).
  left. reflexivity.
Defined.

(** Both conversions return unless creating a directory throws. *)
Lemma convert_pdf_returns b pf pdf_path output_dir options created :
  create_directories b output_dir = Returned created ->
  exists r, io_result (convert_pdf b pf pdf_path output_dir options) = Returned r.
Proof.
  intros Hdir. unfold convert_pdf, load_document, io_bind, io_call, io_lift, io_ret, io_result.
  destruct (load_from_file b pdf_path) as [d|]; simpl; [|eauto].
  destruct (is_locked b d); simpl; [eauto|]. rewrite Hdir. simpl. eauto.
Qed.

Lemma convert_page_returns b pdf_path page_number output_path options created :
  create_directories b (path_parent output_path) = Returned created ->
  exists r,
    io_result (convert_page b pdf_path page_number output_path options) = Returned r.
Proof.
  intros Hdir. unfold convert_page, load_document, io_bind, io_call, io_ret, io_result.
  destruct (load_from_file b pdf_path) as [d|]; simpl; [|eauto].
  destruct (is_locked b d); simpl; [eauto|].
  destruct ((page_number <? 1) || (pages b d <? page_number)); simpl; [eauto|].
  destruct (create_page b d (page_number - 1)) as [p|]; simpl; [|eauto].
  unfold save_page_as_image, io_bind, io_call, io_lift, io_ret.
  destruct (render_scale options (page_rect_width b p) (page_rect_height b p))
    as [scale_x scale_y].
  simpl. destruct (is_valid b _); simpl; [|eauto].
  rewrite Hdir. simpl. destruct (image_save b _ _ _); simpl; eauto.
Qed.

(** ** The render scale *)

Lemma std_min_same {T} `{Arith T} (a : T) : std_min a a = a.
Proof. unfold std_min. now destruct (a_ltb a a). Qed.

(** The code and the wording of the specification compute the same
    scale, whatever the arithmetic: the code takes the minimum only when
    a limit is configured, and without a limit both axes are equal. *)
Lemma render_scale_refines {T} `{Arith T} (options : ConversionOptions T) pw ph :
  render_scale options pw ph = spec_render_scale options pw ph.
Proof.
  unfold render_scale, spec_render_scale, spec_axis_scale.
  destruct (0 <? max_width options), (0 <? max_height options),
    (preserve_aspect_ratio options); cbn [orb andb]; try reflexivity.
  now rewrite std_min_same.
Qed.

(** [<] on [double] is asymmetric and irreflexive, NaN included. *)
Lemma SFcompare_antisym x y c :
  SpecFloat.SFcompare x y = Some c -> SpecFloat.SFcompare y x = Some (CompOpp c).
Proof.
  destruct x as [sx|sx| |sx mx ex], y as [sy|sy| |sy my ey]; cbn;
    try discriminate; intros [= <-];
    try (destruct sx; reflexivity); try (destruct sy; reflexivity);
    try (destruct sx, sy; reflexivity).
  destruct sx, sy; try reflexivity;
    rewrite (Z.compare_antisym ex ey); destruct (ex ?= ey); cbn; try reflexivity;
    rewrite Pos.compare_cont_antisym; cbn; now rewrite ?CompOpp_involutive.
Qed.

Lemma double_ltb_asym (x y : float) :
  PrimFloat.ltb x y = true -> PrimFloat.ltb y x = false.
Proof.
  rewrite !FloatAxioms.ltb_spec. unfold SpecFloat.SFltb.
  destruct (SpecFloat.SFcompare (FloatOps.Prim2SF x) (FloatOps.Prim2SF y))
    as [c|] eqn:Hc; [|discriminate].
  rewrite (SFcompare_antisym _ _ _ Hc). now destruct c.
Qed.

Lemma double_ltb_irrefl (x : float) : PrimFloat.ltb x x = false.
Proof.
  destruct (PrimFloat.ltb x x) eqn:Hlt; [|reflexivity].
  now rewrite (double_ltb_asym _ _ Hlt) in Hlt.
Qed.

(** [std::min] on [double] returns one of its arguments, and neither
    argument is below it. *)
Lemma double_std_min (a b : float) :
  (std_min a b = a \/ std_min a b = b) /\
  PrimFloat.ltb a (std_min a b) = false /\ PrimFloat.ltb b (std_min a b) = false.
Proof.
  unfold std_min. cbn [a_ltb double_arith].
  destruct (PrimFloat.ltb b a) eqn:Hlt.
  - split; [now right|]. split; [now apply double_ltb_asym|apply double_ltb_irrefl].
  - split; [now left|]. split; [apply double_ltb_irrefl|exact Hlt].
Qed.

(** One axis on [double]: without a limit it keeps dpi/72; with a limit
    it either keeps dpi/72, the dimension rendered at that scale not
    being above the limit, or it becomes limit/dimension. *)
Lemma double_axis_scale (dpi_value : float) (limit : Z) (dimension : float) :
  let base := PrimFloat.div dpi_value 72 in
  let scale := spec_axis_scale dpi_value limit dimension in
  (limit <= 0 -> scale = base) /\
  (0 < limit ->
   (scale = base /\
    PrimFloat.ltb (float_of_int limit) (PrimFloat.mul dimension scale) = false) \/
   (scale = PrimFloat.div (float_of_int limit) dimension /\
    PrimFloat.ltb (float_of_int limit) (PrimFloat.mul dimension base) = true)).
Proof.
  cbn zeta. unfold spec_axis_scale. cbn [a_div a_mul a_ltb a_of_int a_72 double_arith].
  destruct (Z.ltb_spec 0 limit) as [Hpos|Hnone]; cbn [andb].
  - split; [lia|]. intros _.
    destruct (PrimFloat.ltb (float_of_int limit)
                (PrimFloat.mul dimension (PrimFloat.div dpi_value 72))) eqn:Hlt.
    + right. now split.
    + left. now split.
  - split; [reflexivity|lia].
Qed.




(** In exact arithmetic the same computation keeps the page dimension
    times the scale within every configured limit, on a page of positive
    size: the excess on [double] is rounding alone. *)
Lemma exact_axis_bound (dpi_value : Q) (limit : Z) (dimension : Q) :
  (0 < dimension)%Q -> 0 < limit ->
  (dimension * spec_axis_scale dpi_value limit dimension <= inject_Z limit)%Q.
Proof.
  intros Hdim Hlimit. unfold spec_axis_scale.
  destruct (Z.ltb_spec 0 limit) as [_|?]; [|lia]. cbn [andb a_ltb a_mul a_div a_of_int exact_arith].
  destruct (Qle_bool (dimension * (dpi_value / a_72)) (inject_Z limit)) eqn:Hle; cbn [negb].
  - now apply Qle_bool_iff.
  - rewrite Qmult_div_r; [apply Qle_refl|].
    intros Hzero. rewrite Hzero in Hdim. now apply Qlt_irrefl in Hdim.
Qed.

Lemma exact_std_min_le (a b : Q) : (std_min a b <= a)%Q /\ (std_min a b <= b)%Q.
Proof.
  unfold std_min. cbn [a_ltb exact_arith].
  destruct (Qle_bool a b) eqn:Hle; cbn [negb].
  - split; [apply Qle_refl|now apply Qle_bool_iff].
  - split; [|apply Qle_refl].
    destruct (Qlt_le_dec b a) as [Hlt|Hge]; [now apply Qlt_le_weak|].
    apply Qle_bool_iff in Hge. congruence.
Qed.

Lemma exact_render_bound (options : ConversionOptions Q) (pw ph : Q) :
  (0 < pw)%Q -> (0 < ph)%Q ->
  (0 < max_width options ->
   (pw * fst (render_scale options pw ph) <= inject_Z (max_width options))%Q) /\
  (0 < max_height options ->
   (ph * snd (render_scale options pw ph) <= inject_Z (max_height options))%Q).
Proof.
  intros Hpw Hph. rewrite render_scale_refines.
  pose proof (exact_axis_bound (dpi options) (max_width options) pw Hpw) as Hx.
  pose proof (exact_axis_bound (dpi options) (max_height options) ph Hph) as Hy.
  unfold spec_render_scale.
  set (sx := spec_axis_scale (dpi options) (max_width options) pw) in *.
  set (sy := spec_axis_scale (dpi options) (max_height options) ph) in *.
  destruct (exact_std_min_le sx sy) as [Hminx Hminy].
  destruct (preserve_aspect_ratio options); cbn [fst snd]; split; intros Hlimit.
  - apply Qle_trans with (pw * sx)%Q; [|auto].
    rewrite !(Qmult_comm pw). apply Qmult_le_compat_r; [exact Hminx|now apply Qlt_le_weak].
  - apply Qle_trans with (ph * sy)%Q; [|auto].
    rewrite !(Qmult_comm ph). apply Qmult_le_compat_r; [exact Hminy|now apply Qlt_le_weak].
  - auto.
  - auto.
Qed.

(** ** The batch processor *)

Lemma process_directory_snoc env schedule l :
  process_directory env (schedule ++ [l]) =
    step env l (process_directory env schedule).
Proof. unfold process_directory, exec. now rewrite fold_left_app. Qed.

(** What holds initially and is kept by every step holds after every
    schedule. *)
Lemma invariant_holds env (P : state -> Prop) :
  P initial_state ->
  (forall l s, P s -> P (step env l s)) ->
  forall schedule, P (process_directory env schedule).
Proof.
  intros Hinit Hstep schedule.
  induction schedule as [|l schedule IH] using rev_ind; [exact Hinit|].
  rewrite process_directory_snoc. now apply Hstep.
Qed.

(** *** Workers' program counters *)

Lemma in_flight_app ws ws' : in_flight (ws ++ ws') = in_flight ws ++ in_flight ws'.
Proof. unfold in_flight. now rewrite map_app, concat_app. Qed.

Lemma in_flight_insert ws w p p' :
  ws !! w = Some p ->
  held p ++ in_flight (<[w := p']> ws) ≡ₚ held p' ++ in_flight ws.
Proof.
  revert w. induction ws as [|q ws IH]; intros [|w] Hw; try discriminate.
  - injection Hw as ->. unfold in_flight. simpl.
    fold (in_flight ws). rewrite !app_assoc. f_equiv. apply Permutation_app_comm.
  - simpl in Hw. specialize (IH w Hw). unfold in_flight in *. simpl.
    rewrite !app_assoc, (Permutation_app_comm (held p) (held q)),
      (Permutation_app_comm (held p') (held q)), <- !app_assoc.
    now f_equiv.
Qed.

Lemma in_flight_insert_same ws w p p' :
  ws !! w = Some p -> held p = held p' ->
  in_flight (<[w := p']> ws) ≡ₚ in_flight ws.
Proof.
  intros Hw Heq. pose proof (in_flight_insert ws w p p' Hw) as H.
  rewrite Heq in H. now apply Permutation_app_inv_l in H.
Qed.

Lemma all_exited_lookup ws w p :
  forallb exited ws = true -> ws !! w = Some p -> p = W_exit.
Proof.
  intros Hall Hw. rewrite forallb_forall in Hall.
  apply list_elem_of_lookup_2, list_elem_of_In, Hall in Hw. now destruct p.
Qed.

Lemma all_exited_in_flight ws : forallb exited ws = true -> in_flight ws = [].
Proof.
  induction ws as [|p ws IH]; [reflexivity|]. simpl. intros H.
  apply andb_true_iff in H as [Hp Hws]. unfold in_flight in *. simpl.
  rewrite (IH Hws). now destruct p.
Qed.

Lemma step_worker_all_exited env w s :
  forallb exited (workers s) = true -> step_worker env w s = s.
Proof.
  intros Hall. unfold step_worker.
  destruct (workers s !! w) as [p|] eqn:Hw; [|reflexivity].
  now rewrite (all_exited_lookup _ _ _ Hall Hw).
Qed.

Lemma step_worker_no_workers env w s : workers s = [] -> step_worker env w s = s.
Proof. intros Hnil. apply step_worker_all_exited. now rewrite Hnil. Qed.

(** A worker step keeps the calling thread, the number of workers and
    the counts of spawns and directory preparations. *)
Lemma step_worker_frame env w s :
  let s' := step_worker env w s in
  main s' = main s /\ length (workers s') = length (workers s) /\
  cancel_requested_ s' = cancel_requested_ s /\
  spawn_count (trace s') = spawn_count (trace s) /\
  ensure_count (trace s') = ensure_count (trace s).
Proof.
  unfold step_worker.
  destruct (workers s !! w) as [[]|]; simpl;
    repeat match goal with
           | |- context [if ?c then _ else _] => destruct c eqn:?; simpl
           end;
    rewrite ?length_insert; repeat split; congruence.
Qed.

(** The report follows the recorded outcomes. *)
Lemma step_worker_result env w s :
  result s = aggregate env (recorded_indices (trace s)) ->
  result (step_worker env w s) =
    aggregate env (recorded_indices (trace (step_worker env w s))).
Proof.
  intros Hres. unfold step_worker.
  destruct (workers s !! w) as [[]|]; simpl;
    repeat match goal with
           | |- context [if ?c then _ else _] => destruct c eqn:?; simpl
           end;
    try exact Hres.
  now rewrite Hres.
Qed.

Lemma running_step_worker env w s :
  running env s -> running env (step_worker env w s).
Proof.
  intros (Hfiles & Hready & Hensure & Hspawn & Hres).
  destruct (step_worker_frame env w s) as (_ & Hlen & _ & Hs & He).
  unfold running. rewrite Hs, He, Hlen.
  repeat split; auto using step_worker_result.
Qed.


Lemma idle_step_worker env w s : idle s -> step_worker env w s = s.
Proof. intros (Hnil & _). now apply step_worker_no_workers. Qed.

(** *** The calling thread *)

Lemma phase_inv_step env l s : phase_inv env s -> phase_inv env (step env l s).
Proof.
  intros Hinv. destruct l as [|w|]; cbn [step].
  - (* the calling thread moves *)
    unfold phase_inv in *. unfold step_main.
    destruct (main s) as [| |i|i| |] eqn:Hmain.
    + destruct Hinv as (Hidle & Hensure & Hres).
      destruct (pdf_files env) as [|f files] eqn:Hfiles; state_simpl.
      * left. rewrite Hres. repeat split; try apply Hidle; auto.
      * rewrite Hres. repeat split; try apply Hidle; auto.
    + destruct Hinv as ((Hnil & Hspawn & Hrec) & Hensure & Hfiles & Hres).
      destruct (output_dir_ready env) eqn:Hready; state_simpl.
      * split; [|rewrite Hnil; cbn; lia].
        unfold running. state_simpl. trace_simpl.
        rewrite Hnil, Hrec, Hres, Hspawn, Hensure. auto.
      * right. left. unfold idle. state_simpl. trace_simpl.
        rewrite Hres, Hensure. auto 10.
    + destruct Hinv as (Hrun & Hlen & Hle).
      destruct (Z.ltb_spec i (num_threads_ env)) as [Hlt|Hge]; cbn [andb].
      * destruct (cancel_requested_ s) eqn:Hc; cbn [negb]; state_simpl.
        -- split; [exact Hrun|]. rewrite Hc. discriminate.
        -- split; [exact Hrun|]. split; [exact Hlen|exact Hlt].
      * state_simpl. split; [exact Hrun|]. intros _. lia.
    + destruct Hinv as ((Hfiles & Hready & Hensure & Hspawn & Hres) & Hlen & Hlt).
      state_simpl. unfold running. state_simpl. trace_simpl.
      rewrite length_app, Hspawn. cbn [length].
      repeat split; auto; lia.
    + destruct Hinv as (Hrun & Hlen).
      destruct (forallb exited (workers s)) eqn:Hall; state_simpl.
      * right. right. auto.
      * rewrite Hmain. auto.
    + rewrite Hmain. exact Hinv.
  - (* a worker moves *)
    destruct (step_worker_frame env w s) as (Hmain & Hlen & Hcancel & _).
    unfold phase_inv in *. rewrite Hmain.
    destruct (main s) as [| |i|i| |].
    + destruct Hinv as (Hidle & ?). now rewrite (idle_step_worker env w s Hidle).
    + destruct Hinv as (Hidle & ?). now rewrite (idle_step_worker env w s Hidle).
    + destruct Hinv as (Hrun & ? & ?). rewrite Hlen. auto using running_step_worker.
    + destruct Hinv as (Hrun & ? & ?). rewrite Hlen. auto using running_step_worker.
    + destruct Hinv as (Hrun & ?). rewrite Hlen, Hcancel. auto using running_step_worker.
    + destruct Hinv as [(? & Hidle & ?)|[(? & ? & Hidle & ?)|(Hrun & Hall & ?)]].
      * rewrite (idle_step_worker env w s Hidle). left. auto.
      * rewrite (idle_step_worker env w s Hidle). right. left. auto.
      * rewrite (step_worker_all_exited env w s Hall). right. right. auto.
  - (* the flag is raised *)
    unfold phase_inv in *. state_simpl.
    destruct (main s) as [| |i|i| |]; try exact Hinv.
    + destruct Hinv as (Hrun & _). split; [exact Hrun|discriminate].
    + destruct Hinv as [?|[?|(Hrun & Hall & _)]]; auto.
      right. right. repeat split; try apply Hrun; auto. discriminate.
Qed.

(** The calling thread touches neither the claim counter nor the flag,
    and launches workers at the head of their loop. *)
Lemma step_main_frame env s :
  let s' := step_main env s in
  file_index s' = file_index s /\
  cancel_requested_ s' = cancel_requested_ s /\
  claimed_indices (trace s') = claimed_indices (trace s) /\
  recorded_indices (trace s') = recorded_indices (trace s) /\
  (forall w, late_claims w (trace s') = late_claims w (trace s)) /\
  (workers s' = workers s \/ workers s' = workers s ++ [W_check]).
Proof.
  unfold step_main.
  destruct (main s); state_simpl;
    repeat match goal with
           | |- context [match ?c with _ => _ end] => destruct c; state_simpl
           end;
    repeat split; auto.
Qed.

(** *** The claim counter *)

Lemma seqZ_snoc n : 0 <= n -> seqZ 0 (n + 1) = seqZ 0 n ++ [n].
Proof.
  intros Hn. rewrite seqZ_app by lia. f_equal.
Qed.

Lemma claim_inv_step env l s : claim_inv env s -> claim_inv env (step env l s).
Proof.
  intros (Hpos & Hclaimed & Hperm). destruct l as [|w|]; cbn [step].
  - destruct (step_main_frame env s) as (Hfi & _ & Hc & Hr & _ & Hws).
    unfold claim_inv. rewrite Hfi, Hc, Hr.
    split; [exact Hpos|]. split; [exact Hclaimed|].
    destruct Hws as [->| ->]; [exact Hperm|].
    rewrite in_flight_app. unfold in_flight at 2. cbn. now rewrite app_nil_r.
  - unfold step_worker.
    destruct (workers s !! w) as [[| |i|i|]|] eqn:Hw; try (split; [|split]; assumption).
    + (* the loop condition *)
      assert (forall p, held W_check = held p ->
                claim_inv env (set_worker s w p)) as Hkeep.
      { intros p Hheld. unfold claim_inv. state_simpl.
        split; [exact Hpos|]. split; [exact Hclaimed|].
        now rewrite (in_flight_insert_same _ _ _ _ Hw Hheld). }
      destruct (cancel_requested_ s); now apply Hkeep.
    + (* fetch_add *)
      destruct (Z.leb_spec (file_count env) (file_index s)) as [Hend|Hmore];
        unfold claim_inv; state_simpl; trace_simpl.
      * split; [lia|]. split.
        { rewrite Hclaimed. do 2 f_equal. lia. }
        now rewrite (in_flight_insert_same _ _ W_fetch W_exit Hw eq_refl).
      * split; [lia|]. split.
        { rewrite Hclaimed.
          replace (Z.min (file_index s + 1) (file_count env)) with
            (Z.min (file_index s) (file_count env) + 1) by lia.
          rewrite seqZ_snoc, rev_app_distr by lia. cbn. do 2 f_equal. lia. }
        pose proof (in_flight_insert _ _ _ (W_progress (file_index s)) Hw) as Hins.
        cbn [held app] in Hins. rewrite Hins, <- Hperm.
        now rewrite Permutation_middle.
    + (* the progress block *)
      assert (claim_inv env (set_worker s w (W_convert i))) as Hkeep.
      { unfold claim_inv. state_simpl.
        split; [exact Hpos|]. split; [exact Hclaimed|].
        now rewrite (in_flight_insert_same _ _ (W_progress i) (W_convert i) Hw eq_refl). }
      destruct (has_progress_callback env); exact Hkeep.
    + (* the locked update *)
      unfold claim_inv. state_simpl. trace_simpl.
      split; [exact Hpos|]. split; [exact Hclaimed|].
      pose proof (in_flight_insert _ _ _ W_check Hw) as Hins.
      cbn [held app] in Hins. rewrite <- Hperm, <- Hins.
      apply Permutation_middle.
  - exact (conj Hpos (conj Hclaimed Hperm)).
Qed.

Lemma lookup_insert_worker (ws : list worker_pc) w0 w p q :
  ws !! w0 = Some q ->
  <[w0 := p]> ws !! w = if decide (w = w0) then Some p else ws !! w.
Proof.
  intros Hw0. destruct (decide (w = w0)) as [->|Hne].
  - apply list_lookup_insert_eq. now apply lookup_lt_Some in Hw0.
  - now apply list_lookup_insert_ne.
Qed.

Lemma lookup_launched (ws : list worker_pc) w p :
  (ws ++ [W_check]) !! w = Some p -> ws !! w = Some p \/ p = W_check.
Proof.
  intros Hw. apply lookup_app_Some in Hw as [Hw|(_ & Hw)]; [now left|right].
  destruct (w - length ws)%nat; simpl in Hw; [congruence|discriminate].
Qed.

(** *** Leaving the loop *)

Lemma exit_inv_step env l s : exit_inv env s -> exit_inv env (step env l s).
Proof.
  intros Hinv. destruct l as [|w0|]; cbn [step].
  - destruct (step_main_frame env s) as (Hfi & Hcancel & _ & _ & _ & Hws).
    unfold exit_inv. rewrite Hfi, Hcancel. intros Hc w Hw.
    destruct Hws as [Heq|Heq]; rewrite Heq in Hw.
    + now apply (Hinv Hc w).
    + apply lookup_launched in Hw as [Hw|?]; [now apply (Hinv Hc w)|discriminate].
  - unfold step_worker.
    destruct (workers s !! w0) as [[| |i|i|]|] eqn:Hw0; try exact Hinv;
      unfold exit_inv in *;
      repeat match goal with
             | |- context [if ?c then _ else _] => destruct c eqn:?
             end;
      state_simpl; intros Hc w Hw;
      rewrite (lookup_insert_worker _ _ _ _ _ Hw0) in Hw;
      destruct (decide (w = w0)); try discriminate;
      try (specialize (Hinv Hc w Hw)); try (specialize (Hinv eq_refl w Hw));
      rewrite ?Z.leb_le, ?Z.leb_gt in *; try lia; try congruence.
  - unfold exit_inv. cbn. discriminate.
Qed.

(** *** Claims after the flag is raised *)

Lemma late_claims_claim w w0 i c t :
  late_claims w (EvClaim w0 i c :: t) =
    if c && bool_decide (w0 = w) then i :: late_claims w t else late_claims w t.
Proof.
  unfold late_claims. cbn [omap list_omap].
  destruct c; [|reflexivity]. cbn [andb].
  case_bool_decide; case_decide; congruence.
Qed.

Lemma late_inv_set_worker s w0 p q :
  late_inv s -> workers s !! w0 = Some q ->
  (p = W_fetch ->
   cancel_requested_ s = false \/ q = W_fetch) ->
  late_inv (set_worker s w0 p).
Proof.
  intros Hinv Hw0 Hfetch w. destruct (Hinv w) as [Hnone Hone].
  state_simpl. split; [exact Hnone|].
  rewrite (lookup_insert_worker _ _ _ _ _ Hw0).
  destruct (decide (w = w0)) as [->|Hne]; [|exact Hone].
  destruct p; cbn [fetch_pending]; try lia.
  destruct (Hfetch eq_refl) as [Hc| ->].
  - rewrite (Hnone Hc). cbn. lia.
  - now rewrite Hw0 in Hone.
Qed.

Lemma late_inv_log s e :
  late_inv s -> (forall w, late_claims w (e :: trace s) = late_claims w (trace s)) ->
  late_inv (log_event s e).
Proof.
  intros Hinv He w. destruct (Hinv w) as [Hnone Hone].
  state_simpl. now rewrite He.
Qed.

Lemma late_inv_step env l s : late_inv s -> late_inv (step env l s).
Proof.
  intros Hinv. destruct l as [|w0|]; cbn [step].
  - destruct (step_main_frame env s) as (_ & Hcancel & _ & _ & Hlate & Hws).
    intros w. destruct (Hinv w) as [Hnone Hone].
    rewrite Hlate, Hcancel. split; [exact Hnone|].
    destruct Hws as [->| ->]; [exact Hone|].
    destruct (workers s !! w) as [p|] eqn:Hw.
    + now rewrite (lookup_app_l_Some _ _ _ _ Hw).
    + destruct ((workers s ++ [W_check]) !! w) as [p|] eqn:Hw'; [|simpl in *; lia].
      apply lookup_launched in Hw' as [?| ->]; [congruence|simpl in *; lia].
  - unfold step_worker.
    destruct (workers s !! w0) as [[| |i|i|]|] eqn:Hw0; try exact Hinv.
    + (* the loop condition *)
      destruct (cancel_requested_ s) eqn:Hc;
        apply (late_inv_set_worker _ _ _ _ Hinv Hw0); [discriminate|auto].
    + (* fetch_add *)
      destruct (file_count env <=? file_index s).
      * intros w. destruct (Hinv w) as [Hnone Hone]. state_simpl.
        split; [exact Hnone|].
        rewrite (lookup_insert_worker _ _ _ _ _ Hw0).
        destruct (decide (w = w0)); [cbn; lia|exact Hone].
      * intros w. destruct (Hinv w) as [Hnone Hone]. state_simpl.
        rewrite late_claims_claim, (lookup_insert_worker _ _ _ _ _ Hw0).
        destruct (cancel_requested_ s) eqn:Hc; cbn [andb].
        -- split; [discriminate|]. case_bool_decide as Hww.
           ++ subst w. rewrite decide_True by reflexivity.
              rewrite Hw0 in Hone. cbn in *. lia.
           ++ rewrite decide_False by congruence. exact Hone.
        -- split; [exact Hnone|].
           destruct (decide (w = w0)); [|exact Hone].
           rewrite (Hnone eq_refl). cbn. lia.
    + (* the progress block *)
      destruct (has_progress_callback env).
      * apply (late_inv_set_worker _ _ _ (W_progress i)); [|exact Hw0|discriminate].
        apply late_inv_log; [exact Hinv|reflexivity].
      * apply (late_inv_set_worker _ _ _ _ Hinv Hw0). discriminate.
    + (* the locked update *)
      apply (late_inv_set_worker _ _ _ (W_convert i)); [|exact Hw0|discriminate].
      intros w. destruct (Hinv w) as [Hnone Hone]. split; [exact Hnone|exact Hone].
  - intros w. destruct (Hinv w) as [_ Hone]. cbn. split; [discriminate|exact Hone].
Qed.

(** *** The invariants hold after every schedule *)

Lemma phase_inv_holds env schedule : phase_inv env (process_directory env schedule).
Proof.
  apply invariant_holds; [|intros l s; apply phase_inv_step].
  unfold phase_inv, idle. cbn. auto.
Qed.

Lemma claim_inv_holds env schedule : claim_inv env (process_directory env schedule).
Proof.
  apply invariant_holds; [|intros l s; apply claim_inv_step].
  unfold claim_inv. cbn. split; [lia|]. split; [|reflexivity].
  rewrite seqZ_nil; [reflexivity|]. unfold file_count. lia.
Qed.

Lemma exit_inv_holds env schedule : exit_inv env (process_directory env schedule).
Proof.
  apply invariant_holds; [|intros l s; apply exit_inv_step].
  intros _ w Hw. discriminate.
Qed.

Lemma late_inv_holds env schedule : late_inv (process_directory env schedule).
Proof.
  apply invariant_holds; [|intros l s; apply late_inv_step].
  intros w. split; [reflexivity|].
  cbn [initial_state workers trace]. rewrite lookup_nil. cbn. lia.
Qed.

(** *** The report *)

Lemma aggregate_counts env indices :
  total_pdfs (aggregate env indices) = file_count env /\
  successful_conversions (aggregate env indices) +
    failed_conversions (aggregate env indices) = Z.of_nat (length indices) /\
  Z.of_nat (length (errors (aggregate env indices))) =
    failed_conversions (aggregate env indices).
Proof.
  induction indices as [|i indices (Htotal & Hsum & Herr)]; [cbn; auto|].
  cbn [aggregate]. unfold record_result.
  destruct (success (convert env (file_at env i)));
    cbn [total_pdfs successful_conversions failed_conversions errors];
    rewrite ?length_app; cbn [length]; repeat split; lia.
Qed.

(** A run that went through the workers and returned: the claimed
    indices are [0 .. min file_index n - 1], each one recorded once, and
    the report is the aggregate of their outcomes. *)
Lemma joined_run env schedule :
  let s := process_directory env schedule in
  returned s -> pdf_files env <> [] -> output_dir_ready env = true ->
  running env s /\ forallb exited (workers s) = true /\
  recorded_indices (trace s) ≡ₚ claimed_indices (trace s) /\
  claimed_indices (trace s) =
    rev (seqZ 0 (Z.min (file_index s) (file_count env))) /\
  (cancel_requested_ s = false ->
   Z.of_nat (length (workers s)) = Z.max 0 (num_threads_ env)).
Proof.
  intros s Hret Hfiles Hready.
  pose proof (phase_inv_holds env schedule) as Hphase.
  pose proof (claim_inv_holds env schedule) as (_ & Hclaimed & Hperm).
  fold s in Hphase, Hclaimed, Hperm. unfold phase_inv in Hphase.
  unfold returned in Hret. rewrite Hret in Hphase.
  destruct Hphase as [(? & _)|[(_ & ? & _)|(Hrun & Hall & Hlen)]]; try congruence.
  rewrite (all_exited_in_flight _ Hall), app_nil_r in Hperm. auto.
Qed.

(** ** Every run can be completed

    From any state, letting the calling thread and then each worker run
    leads to the return of [process_directory] without raising the
    flag: joining does not wait for ever, and no claimed file is left
    unrecorded. *)

Lemma exec_app env a b s : exec env (a ++ b) s = exec env b (exec env a s).
Proof. unfold exec. apply fold_left_app. Qed.

Lemma step_worker_other env w w' s :
  w' <> w -> workers (step_worker env w s) !! w' = workers s !! w'.
Proof.
  intros Hne. unfold step_worker.
  destruct (workers s !! w) as [[]|]; try reflexivity;
    repeat match goal with
           | |- context [if ?c then _ else _] => destruct c
           end;
    state_simpl; now apply list_lookup_insert_ne.
Qed.

Lemma step_worker_at env w s p :
  workers s !! w = Some p ->
  let s' := step_worker env w s in
  match p with
  | W_check =>
      workers s' !! w = Some (if cancel_requested_ s then W_exit else W_fetch) /\
      file_index s' = file_index s
  | W_fetch =>
      file_index s' = file_index s + 1 /\
      workers s' !! w =
        Some (if file_count env <=? file_index s then W_exit
              else W_progress (file_index s))
  | W_progress i =>
      workers s' !! w = Some (W_convert i) /\ file_index s' = file_index s
  | W_convert i =>
      workers s' !! w = Some W_check /\ file_index s' = file_index s
  | W_exit => s' = s
  end.
Proof.
  intros Hw. pose proof (lookup_lt_Some _ _ _ Hw) as Hlt.
  unfold step_worker. rewrite Hw.
  destruct p; try reflexivity;
    repeat match goal with
           | |- context [if ?c then _ else _] => destruct c
           end;
    state_simpl; split; try reflexivity; now apply list_lookup_insert_eq.
Qed.

(** Steps of worker [w] alone leave the rest as it is. *)
Lemma worker_steps_frame env w k s :
  let s' := exec env (replicate k (L_worker w)) s in
  main s' = main s /\ cancel_requested_ s' = cancel_requested_ s /\
  length (workers s') = length (workers s) /\
  forall w', w' <> w -> workers s' !! w' = workers s !! w'.
Proof.
  revert s. induction k as [|k IH]; intros s; [cbn; auto|].
  cbn [replicate]. change (exec env (L_worker w :: replicate k (L_worker w)) s)
    with (exec env (replicate k (L_worker w)) (step_worker env w s)).
  destruct (IH (step_worker env w s)) as (Hmain & Hcancel & Hlen & Hother).
  destruct (step_worker_frame env w s) as (Hmain' & Hlen' & Hcancel' & _).
  cbv zeta. rewrite Hmain, Hcancel, Hlen. repeat split; try assumption.
  intros w' Hne. rewrite (Hother w' Hne). now apply step_worker_other.
Qed.

(** A worker that keeps running leaves its loop. *)
Lemma worker_leaves env w m :
  forall s p, workers s !! w = Some p -> remaining env s = m ->
  exists k, workers (exec env (replicate k (L_worker w)) s) !! w = Some W_exit.
Proof.
  induction m as [m IH] using lt_wf_ind.
  assert (forall s, workers s !! w = Some W_fetch -> remaining env s = m ->
            exists k, workers (exec env (replicate k (L_worker w)) s) !! w
                        = Some W_exit) as Hfetch.
  { intros s Hw Hm.
    destruct (step_worker_at env w s _ Hw) as (Hfi & Hpc).
    destruct (Z.leb_spec (file_count env) (file_index s)) as [Hend|Hmore].
    - now exists 1%nat.
    - destruct (IH (remaining env (step_worker env w s))) with
        (s := step_worker env w s) (p := W_progress (file_index s))
        as [k Hk]; [|exact Hpc|reflexivity|].
      + unfold remaining in *. rewrite Hfi. lia.
      + now exists (S k). }
  assert (forall s, workers s !! w = Some W_check -> remaining env s = m ->
            exists k, workers (exec env (replicate k (L_worker w)) s) !! w
                        = Some W_exit) as Hcheck.
  { intros s Hw Hm.
    destruct (step_worker_at env w s _ Hw) as (Hpc & Hfi).
    destruct (cancel_requested_ s); [now exists 1%nat|].
    destruct (Hfetch (step_worker env w s) Hpc) as [k Hk].
    - unfold remaining in *. now rewrite Hfi.
    - now exists (S k). }
  assert (forall s i, workers s !! w = Some (W_convert i) -> remaining env s = m ->
            exists k, workers (exec env (replicate k (L_worker w)) s) !! w
                        = Some W_exit) as Hconvert.
  { intros s i Hw Hm.
    destruct (step_worker_at env w s _ Hw) as (Hpc & Hfi).
    destruct (Hcheck (step_worker env w s) Hpc) as [k Hk].
    - unfold remaining in *. now rewrite Hfi.
    - now exists (S k). }
  intros s [| |i|i|] Hw Hm; eauto.
  - destruct (step_worker_at env w s _ Hw) as (Hpc & Hfi).
    destruct (Hconvert (step_worker env w s) i Hpc) as [k Hk].
    + unfold remaining in *. now rewrite Hfi.
    + now exists (S k).
  - now exists 0%nat.
Qed.

Lemma worker_labels_frame env schedule s :
  Forall worker_label schedule ->
  main (exec env schedule s) = main s /\
  cancel_requested_ (exec env schedule s) = cancel_requested_ s /\
  length (workers (exec env schedule s)) = length (workers s).
Proof.
  intros Hall. revert s. induction Hall as [|l schedule [w ->] _ IH]; intros s.
  - cbn. auto.
  - change (exec env (L_worker w :: schedule) s)
      with (exec env schedule (step_worker env w s)).
    destruct (IH (step_worker env w s)) as (-> & -> & ->).
    destruct (step_worker_frame env w s) as (-> & -> & -> & _). auto.
Qed.

(** All workers can be brought out of their loops. *)
Lemma workers_leave env s :
  exists schedule,
    Forall worker_label schedule /\
    forallb exited (workers (exec env schedule s)) = true.
Proof.
  assert (forall j, exists schedule,
            Forall worker_label schedule /\
            forall w p, (w < j)%nat ->
              workers (exec env schedule s) !! w = Some p -> p = W_exit) as Hupto.
  { induction j as [|j (schedule & Hlabels & Hdone)].
    - exists []. split; [constructor|]. intros w p Hw. lia.
    - set (s1 := exec env schedule s) in *.
      destruct (workers s1 !! j) as [p|] eqn:Hj.
      + destruct (worker_leaves env j _ s1 p Hj eq_refl) as [k Hk].
        destruct (worker_steps_frame env j k s1) as (_ & _ & _ & Hother).
        exists (schedule ++ replicate k (L_worker j)). split.
        * apply Forall_app. split; [exact Hlabels|].
          apply Forall_replicate. now exists j.
        * intros w q Hw Hq. rewrite exec_app in Hq. fold s1 in Hq.
          destruct (decide (w = j)) as [->|Hne]; [congruence|].
          rewrite (Hother w Hne) in Hq. apply (Hdone w q); [lia|exact Hq].
      + exists schedule. split; [exact Hlabels|].
        intros w q Hw Hq. fold s1 in Hq.
        destruct (decide (w = j)) as [->|Hne]; [congruence|].
        apply (Hdone w q); [lia|exact Hq]. }
  destruct (Hupto (length (workers s))) as (schedule & Hlabels & Hdone).
  exists schedule. split; [exact Hlabels|].
  destruct (worker_labels_frame env schedule s Hlabels) as (_ & _ & Hlen).
  apply forallb_forall. intros p Hp.
  apply list_elem_of_In, list_elem_of_lookup in Hp as [w Hw].
  rewrite (Hdone w p); [reflexivity| |exact Hw].
  apply lookup_lt_Some in Hw. lia.
Qed.

Lemma main_steps_keep_flag env k s :
  cancel_requested_ (exec env (replicate k L_main) s) = cancel_requested_ s.
Proof.
  revert s. induction k as [|k IH]; intros s; [reflexivity|].
  change (exec env (replicate (S k) L_main) s)
    with (exec env (replicate k L_main) (step_main env s)).
  rewrite IH. now destruct (step_main_frame env s) as (_ & -> & _).
Qed.

(** The launching loop ends. *)
Lemma launching_ends env m :
  forall s i, main s = M_loop i -> Z.to_nat (num_threads_ env - i) = m ->
  exists k, main (exec env (replicate k L_main) s) = M_join.
Proof.
  induction m as [m IH] using lt_wf_ind. intros s i Hmain Hm.
  assert (main (step_main env s) =
            if (i <? num_threads_ env) && negb (cancel_requested_ s)
            then M_launch i else M_join) as Hstep.
  { unfold step_main. rewrite Hmain.
    now destruct ((i <? num_threads_ env) && negb (cancel_requested_ s)). }
  destruct (Z.ltb_spec i (num_threads_ env)) as [Hlt|Hge]; cbn [andb] in Hstep.
  - destruct (cancel_requested_ s); cbn [negb] in Hstep; [now exists 1%nat|].
    assert (main (step_main env (step_main env s)) = M_loop (i + 1)) as Hnext.
    { unfold step_main at 1. now rewrite Hstep. }
    destruct (IH (Z.to_nat (num_threads_ env - (i + 1)))) with
      (s := step_main env (step_main env s)) (i := i + 1) as [k Hk];
      [lia|exact Hnext|reflexivity|].
    now exists (S (S k)).
  - now exists 1%nat.
Qed.

Lemma main_reaches_join env s :
  exists k,
    main (exec env (replicate k L_main) s) = M_join \/
    main (exec env (replicate k L_main) s) = M_return.
Proof.
  assert (forall s i, main s = M_loop i ->
            exists k, main (exec env (replicate k L_main) s) = M_join) as Hloop.
  { intros s' i Hmain. now apply (launching_ends env _ s' i Hmain eq_refl). }
  assert (forall s, main s = M_ensure ->
            exists k, main (exec env (replicate k L_main) s) = M_join \/
                      main (exec env (replicate k L_main) s) = M_return) as Hensure.
  { intros s' Hmain.
    destruct (output_dir_ready env) eqn:Hready.
    - destruct (Hloop (step_main env s') 0) as [k Hk].
      + unfold step_main. now rewrite Hmain, Hready.
      + exists (S k). now left.
    - exists 1%nat. right. cbn. unfold step_main. now rewrite Hmain, Hready. }
  destruct (main s) as [| |i|i| |] eqn:Hmain.
  - destruct (pdf_files env) as [|f files] eqn:Hfiles.
    + exists 1%nat. right. cbn. unfold step_main. now rewrite Hmain, Hfiles.
    + destruct (Hensure (step_main env s)) as [k Hk].
      * unfold step_main. now rewrite Hmain, Hfiles.
      * now exists (S k).
  - now apply Hensure.
  - destruct (Hloop s i Hmain) as [k Hk]. exists k. now left.
  - destruct (Hloop (step_main env s) (i + 1)) as [k Hk].
    + unfold step_main. now rewrite Hmain.
    + exists (S k). now left.
  - exists 0%nat. now left.
  - exists 0%nat. now right.
Qed.

(** From any state the call can be brought to its return without
    raising the flag. *)
Lemma run_can_complete env s :
  exists rest,
    returned (exec env rest s) /\
    cancel_requested_ (exec env rest s) = cancel_requested_ s.
Proof.
  destruct (main_reaches_join env s) as [k [Hjoin|Hret]].
  - set (s1 := exec env (replicate k L_main) s) in *.
    destruct (workers_leave env s1) as (schedule & Hlabels & Hall).
    destruct (worker_labels_frame env schedule s1 Hlabels) as (Hmain & Hcancel & _).
    exists (replicate k L_main ++ schedule ++ [L_main]).
    rewrite !exec_app. fold s1. set (s2 := exec env schedule s1) in *.
    change (exec env [L_main] s2) with (step_main env s2).
    split.
    + unfold returned, step_main. now rewrite Hmain, Hjoin, Hall.
    + destruct (step_main_frame env s2) as (_ & -> & _).
      rewrite Hcancel. apply main_steps_keep_flag.
  - exists (replicate k L_main). split; [exact Hret|apply main_steps_keep_flag].
Qed.

(** Every schedule of [process_directory] extends to one under which the
    call returns; the extension does not raise the flag. *)
Lemma process_directory_can_return env schedule :
  exists rest,
    returned (process_directory env (schedule ++ rest)) /\
    cancel_requested_ (process_directory env (schedule ++ rest)) =
      cancel_requested_ (process_directory env schedule).
Proof.
  destruct (run_can_complete env (process_directory env schedule)) as (rest & Hret & Hc).
  exists rest. unfold process_directory in *. now rewrite exec_app.
Qed.

(** The flag is never lowered during a run: a run that ends with the
    flag down never had it raised. *)
Lemma flag_stays_raised env schedule s :
  cancel_requested_ s = true -> cancel_requested_ (exec env schedule s) = true.
Proof.
  revert s. induction schedule as [|l schedule IH]; intros s Hset; [exact Hset|].
  change (exec env (l :: schedule) s) with (exec env schedule (step env l s)).
  apply IH. destruct l as [|w|]; cbn [step].
  - now destruct (step_main_frame env s) as (_ & -> & _).
  - now destruct (step_worker_frame env w s) as (_ & _ & -> & _).
  - reflexivity.
Qed.

(** The trace only grows. *)
Lemma trace_grows env schedule s :
  exists new, trace (exec env schedule s) = new ++ trace s.
Proof.
  revert s. induction schedule as [|l schedule IH]; intros s; [now exists []|].
  change (exec env (l :: schedule) s) with (exec env schedule (step env l s)).
  destruct (IH (step env l s)) as [new ->].
  assert (exists e, trace (step env l s) = e ++ trace s) as [e ->].
  { destruct l as [|w|]; cbn [step].
    - unfold step_main. destruct (main s); state_simpl;
        repeat match goal with
               | |- context [match ?c with _ => _ end] => destruct c; state_simpl
               end;
        first [now exists [] | eexists [_]; reflexivity].
    - unfold step_worker. destruct (workers s !! w) as [[]|]; state_simpl;
        repeat match goal with
               | |- context [if ?c then _ else _] => destruct c; state_simpl
               end;
        first [now exists [] | eexists [_]; reflexivity].
    - now exists [EvCancel]. }
  exists (new ++ e). now rewrite app_assoc.
Qed.

(** When the call has returned no worker holds an index: what was
    claimed is recorded, and the two counters count it. *)
Lemma returned_all_recorded env schedule :
  let s := process_directory env schedule in
  returned s -> recorded_indices (trace s) ≡ₚ claimed_indices (trace s).
Proof.
  intros s Hret.
  pose proof (phase_inv_holds env schedule) as Hphase.
  pose proof (claim_inv_holds env schedule) as (_ & _ & Hperm).
  fold s in Hphase, Hperm. unfold phase_inv in Hphase.
  unfold returned in Hret. rewrite Hret in Hphase.
  assert (in_flight (workers s) = []) as Hnone.
  { destruct Hphase as [(_ & (-> & _) & _)|[(_ & _ & (-> & _) & _)|(_ & Hall & _)]];
      [reflexivity|reflexivity|now apply all_exited_in_flight]. }
  now rewrite Hnone, app_nil_r in Hperm.
Qed.

Lemma returned_counts env schedule :
  let s := process_directory env schedule in
  returned s ->
  successful_conversions (result s) + failed_conversions (result s) =
    Z.of_nat (length (recorded_indices (trace s))).
Proof.
  intros s Hret.
  pose proof (phase_inv_holds env schedule) as Hphase.
  fold s in Hphase. unfold phase_inv in Hphase.
  unfold returned in Hret. rewrite Hret in Hphase.
  destruct Hphase as [(_ & (_ & _ & ->) & _ & ->)|[(_ & _ & (_ & _ & ->) & _ & ->)
                     |((_ & _ & _ & _ & ->) & _)]];
    try reflexivity.
  now destruct (aggregate_counts env (recorded_indices (trace s))) as (_ & ? & _).
Qed.

(** Scenario A: three files, two converted with four pages in all, one
    failed, and the only error entry is that of the file that does not
    load. *)
Example scenario_A_report :
  result (process_directory scenario_A_env two_worker_schedule) =
    {| total_pdfs := 3; successful_conversions := 2; failed_conversions := 1;
       total_pages_converted := 4;
       errors := ["c.pdf: Failed to load PDF document"] |}.
Proof. vm_compute. reflexivity. Qed.

(** ** Claim C1 *)

(** A run that returns early because the output directory cannot be
    prepared: one file found, none counted. *)
Lemma counts_differ_on_directory_failure :
  let s := process_directory (sample_env ["a.pdf"] false 1) [L_main; L_main] in
  returned s /\
  successful_conversions (result s) + failed_conversions (result s)
    <> total_pdfs (result s).
Proof. cbn. split; [reflexivity|discriminate]. Qed.

(** Claim C1, amended: in a returned run that found no input, or whose
    output directory was prepared, that has at least one worker thread
    and in which cancellation was never requested, the successful and
    the failed conversions add up to the number of files found. *)
Theorem counts_add_up env schedule :
  let s := process_directory env schedule in
  returned s ->
  cancel_requested_ s = false ->
  pdf_files env = [] \/ (output_dir_ready env = true /\ 1 <= num_threads_ env) ->
  successful_conversions (result s) + failed_conversions (result s) =
    total_pdfs (result s).
Proof.
  intros s Hret Hcancel Hcase.
  destruct (pdf_files env) as [|f files] eqn:Hfiles.
  - pose proof (phase_inv_holds env schedule) as Hphase. fold s in Hphase.
    unfold phase_inv in Hphase. unfold returned in Hret. rewrite Hret in Hphase.
    destruct Hphase as [(_ & _ & _ & ->)|[(? & _)|((? & _) & _)]]; try congruence.
    unfold empty_report, aggregate, push_error, file_count.
    cbn [successful_conversions failed_conversions total_pdfs].
    rewrite Hfiles. reflexivity.
  - destruct Hcase as [?|(Hready & Hthreads)]; [discriminate|].
    assert (pdf_files env <> []) as Hne by congruence.
    destruct (joined_run env schedule Hret Hne Hready)
      as (Hrun & Hall & Hperm & Hclaimed & Hlen).
    fold s in Hrun, Hall, Hperm, Hclaimed, Hlen.
    destruct Hrun as (_ & _ & _ & _ & Hres).
    pose proof (exit_inv_holds env schedule Hcancel) as Hexit. fold s in Hexit.
    specialize (Hlen Hcancel).
    destruct (workers s) as [|p ws] eqn:Hws; [cbn in Hlen; lia|].
    assert (p = W_exit) as -> by (apply (all_exited_lookup _ 0%nat _ Hall); reflexivity).
    specialize (Hexit 0%nat eq_refl).
    destruct (aggregate_counts env (recorded_indices (trace s))) as (Htotal & Hsum & _).
    rewrite Hres, Htotal, Hsum, Hperm, Hclaimed, length_rev, length_seqZ.
    pose proof (claim_inv_holds env schedule) as (Hpos & _). fold s in Hpos.
    unfold file_count in *. lia.
Qed.

Lemma counts_add_up_witness :
  let s := process_directory (sample_env ["a.pdf"; "b.pdf"; "c.pdf"] true 2)
             two_worker_schedule in
  successful_conversions (result s) + failed_conversions (result s) =
    total_pdfs (result s).
Proof.
  apply counts_add_up.
  - reflexivity.
  - reflexivity.
  - right. split; [reflexivity|]. simpl. lia.
Defined.

(** *** Runs that end before any worker is launched *)

Lemma main_steps_snoc schedule l :
  main_steps (schedule ++ [l]) =
    (main_steps schedule + (if is_main l then 1 else 0))%nat.
Proof.
  unfold main_steps. rewrite List.filter_app, length_app.
  cbn [List.filter]. now destruct (is_main l).
Qed.

Lemma early_run_pc env schedule :
  pdf_files env = [] \/ output_dir_ready env = false ->
  main (process_directory env schedule) = early_pc env (main_steps schedule).
Proof.
  intros Hearly.
  induction schedule as [|l schedule IH] using rev_ind; [reflexivity|].
  rewrite process_directory_snoc, main_steps_snoc.
  set (s := process_directory env schedule) in *.
  destruct l as [|w|]; cbn [step is_main].
  - unfold step_main.
    destruct (main_steps schedule) as [|[|k]]; cbn [early_pc Nat.add] in *.
    + rewrite IH. destruct (pdf_files env); reflexivity.
    + destruct (pdf_files env) as [|f files] eqn:Hfiles; rewrite IH; [exact IH|].
      destruct Hearly as [?| ->]; [discriminate|reflexivity].
    + rewrite IH. exact IH.
  - destruct (step_worker_frame env w s) as (-> & _).
    rewrite Nat.add_0_r. exact IH.
  - rewrite Nat.add_0_r. exact IH.
Qed.

Lemma early_run_idle env schedule :
  pdf_files env = [] \/ output_dir_ready env = false ->
  idle (process_directory env schedule).
Proof.
  intros Hearly.
  pose proof (phase_inv_holds env schedule) as Hphase.
  pose proof (early_run_pc env schedule Hearly) as Hpc.
  unfold phase_inv in Hphase. rewrite Hpc in Hphase.
  destruct (main_steps schedule) as [|[|k]]; cbn [early_pc] in Hphase.
  - apply Hphase.
  - destruct (pdf_files env) eqn:Hfiles.
    + destruct Hphase as [(_ & ? & _)|[(? & _)|((? & _) & _)]]; congruence.
    + apply Hphase.
  - destruct Hphase as [(_ & ? & _)|[(_ & _ & ? & _)|((? & ? & _) & _)]]; try assumption.
    destruct Hearly; congruence.
Qed.

(** ** Claim C8 *)

(** Claim C8: when no PDF file is found, the call returns at the first
    step of the calling thread, whatever else the schedule holds; no
    worker is ever spawned, and the returned report has [total_pdfs = 0]
    and the single error "No PDF files found in input directory". *)
Theorem no_input_returns_at_once env schedule :
  pdf_files env = [] ->
  let s := process_directory env schedule in
  workers s = [] /\ spawn_count (trace s) = 0%nat /\
  ((1 <= main_steps schedule)%nat -> returned s) /\
  (returned s ->
   result s = {| total_pdfs := 0; successful_conversions := 0;
                 failed_conversions := 0; total_pages_converted := 0;
                 errors := ["No PDF files found in input directory"] |}).
Proof.
  intros Hfiles s.
  destruct (early_run_idle env schedule (or_introl Hfiles)) as (Hnil & Hspawn & _).
  pose proof (early_run_pc env schedule (or_introl Hfiles)) as Hpc.
  fold s in Hnil, Hspawn, Hpc.
  split; [exact Hnil|]. split; [exact Hspawn|]. split.
  - intros Hsteps. unfold returned. rewrite Hpc.
    destruct (main_steps schedule) as [|[|k]]; cbn [early_pc]; [lia| |reflexivity].
    now rewrite Hfiles.
  - intros Hret. pose proof (phase_inv_holds env schedule) as Hphase.
    fold s in Hphase. unfold phase_inv in Hphase.
    unfold returned in Hret. rewrite Hret in Hphase.
    destruct Hphase as [(_ & _ & _ & ->)|[(? & _)|((? & _) & _)]]; try congruence.
    unfold empty_report, aggregate, push_error, file_count. rewrite Hfiles. reflexivity.
Qed.

Lemma no_input_witness :
  let s := process_directory (sample_env [] true 4) [L_cancel; L_worker 0; L_main] in
  returned s /\ workers s = [] /\
  errors (result s) = ["No PDF files found in input directory"].
Proof.
  destruct (no_input_returns_at_once (sample_env [] true 4)
              [L_cancel; L_worker 0; L_main] eq_refl)
    as (Hworkers & _ & Hret & Hres).
  assert (returned (process_directory (sample_env [] true 4)
                      [L_cancel; L_worker 0; L_main])) as Hreturned.
  { apply Hret. cbn. lia. }
  split; [exact Hreturned|]. split; [exact Hworkers|].
  now rewrite (Hres Hreturned).
Defined.

(** ** Claim C3 *)

(** One file found, the output directory cannot be prepared: the report
    says [total_pdfs = 1], not 0. *)
Lemma total_kept_on_directory_failure :
  let s := process_directory (sample_env ["a.pdf"] false 1) [L_main; L_main] in
  returned s /\ ensure_count (trace s) = 1%nat /\ total_pdfs (result s) <> 0.
Proof. cbn. split; [reflexivity|]. split; [reflexivity|discriminate]. Qed.

(** Claim C3, amended: when files were found and the output directory
    cannot be prepared, the preparation is attempted once, no worker is
    ever spawned, the call returns at the second step of the calling
    thread, and the report has [total_pdfs] the number of files found,
    the three other counters zero and the single error "Failed to create
    output directory". *)
Theorem directory_failure_aborts env schedule :
  pdf_files env <> [] ->
  output_dir_ready env = false ->
  let s := process_directory env schedule in
  workers s = [] /\ spawn_count (trace s) = 0%nat /\
  (ensure_count (trace s) <= 1)%nat /\
  ((2 <= main_steps schedule)%nat -> returned s) /\
  (returned s ->
   ensure_count (trace s) = 1%nat /\
   result s = {| total_pdfs := file_count env; successful_conversions := 0;
                 failed_conversions := 0; total_pages_converted := 0;
                 errors := ["Failed to create output directory"] |}).
Proof.
  intros Hfiles Hready s.
  destruct (early_run_idle env schedule (or_intror Hready)) as (Hnil & Hspawn & _).
  pose proof (early_run_pc env schedule (or_intror Hready)) as Hpc.
  pose proof (phase_inv_holds env schedule) as Hphase.
  fold s in Hnil, Hspawn, Hpc, Hphase. unfold phase_inv in Hphase.
  split; [exact Hnil|]. split; [exact Hspawn|]. split; [|split].
  - destruct (main s); try (destruct Hphase as (_ & -> & _); lia);
      try (destruct Hphase as ((_ & ? & _) & _); congruence).
    destruct Hphase as [(_ & _ & -> & _)|[(_ & _ & _ & -> & _)|((_ & ? & _) & _)]];
      try lia; congruence.
  - intros Hsteps. unfold returned. rewrite Hpc.
    destruct (main_steps schedule) as [|[|k]]; cbn [early_pc]; (lia || reflexivity).
  - intros Hret. unfold returned in Hret. rewrite Hret in Hphase.
    destruct Hphase as [(? & _)|[(_ & _ & _ & -> & ->)|((_ & ? & _) & _)]];
      try congruence.
    split; reflexivity.
Qed.

Lemma directory_failure_witness :
  let s := process_directory (sample_env ["a.pdf"; "b.pdf"] false 2)
             [L_main; L_cancel; L_main; L_worker 0] in
  returned s /\ workers s = [] /\ total_pdfs (result s) = 2.
Proof.
  assert (pdf_files (sample_env ["a.pdf"; "b.pdf"] false 2) <> []) as Hfiles
    by discriminate.
  destruct (directory_failure_aborts (sample_env ["a.pdf"; "b.pdf"] false 2)
              [L_main; L_cancel; L_main; L_worker 0] Hfiles eq_refl)
    as (Hworkers & _ & _ & Hret & Hres).
  assert (returned (process_directory (sample_env ["a.pdf"; "b.pdf"] false 2)
                      [L_main; L_cancel; L_main; L_worker 0])) as Hreturned.
  { apply Hret. cbn. lia. }
  split; [exact Hreturned|]. split; [exact Hworkers|].
  destruct (Hres Hreturned) as (_ & ->). reflexivity.
Defined.

(** ** Claim C4 *)

Lemma int_of_unsigned_small u : 0 <= u < 2 ^ 31 -> int_of_unsigned u = u.
Proof.
  intros Hu. unfold int_of_unsigned. rewrite Z.mod_small by lia.
  destruct (Z.ltb_spec u (2 ^ 31)); lia.
Qed.

(** The hardware concurrency is not detected (0) and no count is asked
    for: the loop launches nothing and the call returns with no worker
    spawned and the file neither converted nor counted as failed. *)
Lemma no_worker_without_detected_cores :
  let s := process_directory undetected_cores_env [L_main; L_main; L_main; L_main] in
  num_threads_ undetected_cores_env = 0 /\
  returned s /\ cancel_requested_ s = false /\
  spawn_count (trace s) = 0%nat /\ workers s = [] /\
  result s = {| total_pdfs := 1; successful_conversions := 0;
                failed_conversions := 0; total_pages_converted := 0;
                errors := [] |}.
Proof. cbn. repeat split; reflexivity. Qed.

(** Claim C4, amended: a requested count [w <= 0] becomes the detected
    hardware concurrency and a positive one is kept; a run that found
    files, prepared the output directory and was not cancelled has
    spawned exactly that many workers when it returns, none when the
    count is 0. *)
Theorem workers_spawned pf requested env schedule :
  0 <= hardware_concurrency pf < 2 ^ 31 ->
  num_threads_ env = BatchProcessor_ctor pf requested ->
  let s := process_directory env schedule in
  num_threads_ env =
    (if requested <=? 0 then hardware_concurrency pf else requested) /\
  (returned s -> pdf_files env <> [] -> output_dir_ready env = true ->
   cancel_requested_ s = false ->
   Z.of_nat (spawn_count (trace s)) = num_threads_ env /\
   Z.of_nat (length (workers s)) = num_threads_ env).
Proof.
  intros Hcores Hctor s.
  assert (num_threads_ env =
            (if requested <=? 0 then hardware_concurrency pf else requested)) as Hn.
  { rewrite Hctor. unfold BatchProcessor_ctor.
    destruct (requested <=? 0); [now apply int_of_unsigned_small|reflexivity]. }
  split; [exact Hn|].
  intros Hret Hfiles Hready Hcancel.
  destruct (joined_run env schedule Hret Hfiles Hready)
    as ((_ & _ & _ & Hspawn & _) & _ & _ & _ & Hlen).
  fold s in Hspawn, Hlen. rewrite Hspawn, (Hlen Hcancel).
  assert (0 <= num_threads_ env); [|lia].
  rewrite Hn. destruct (Z.leb_spec requested 0); lia.
Qed.

Lemma workers_spawned_witness :
  let s := process_directory (sample_env ["a.pdf"; "b.pdf"; "c.pdf"] true 2)
             two_worker_schedule in
  Z.of_nat (spawn_count (trace s)) = 2.
Proof.
  refine (proj1 (proj2 (workers_spawned (lp64 2) 0
            (sample_env ["a.pdf"; "b.pdf"; "c.pdf"] true 2) _ _ _) _ _ _ _)).
  - simpl. lia.
  - reflexivity.
  - reflexivity.
  - discriminate.
  - reflexivity.
  - reflexivity.
Defined.

(** ** Claim C5 *)

Lemma claim_after_cancel : ~ no_claim_after_cancel one_worker_env.
Proof.
  intros Hclaim.
  specialize (Hclaim late_claim_schedule [EvClaim 0%nat 1 true]
                [EvRecord 0%nat 0;
                 EvProgress 0%nat {| current_file := 1; total_files := 3;
                                     current_filename := "a";
                                     pages_processed := 0 |};
                 EvClaim 0%nat 0 false; EvSpawn 0%nat; EvEnsureDir]
                0%nat 1 true 0 eq_refl eq_refl (or_introl eq_refl)).
  lia.
Qed.

(** Claim C5, amended: after the flag is raised a worker claims at most
    one more index (a worker that had already evaluated its loop
    condition; one that evaluates it afterwards leaves); when the call
    returns, every claimed index, whenever it was claimed, has exactly
    one recorded outcome and the report is the aggregate of these
    outcomes; and from every point of a run, cancelled or not, the call
    can be brought to its return, where every index claimed so far is
    recorded. *)
Theorem cancellation_lets_claimed_jobs_finish env schedule :
  let s := process_directory env schedule in
  (forall w, (length (late_claims w (trace s)) <= 1)%nat) /\
  (forall w, workers s !! w = Some W_check -> cancel_requested_ s = true ->
             workers (step env (L_worker w) s) !! w = Some W_exit) /\
  (returned s ->
   recorded_indices (trace s) ≡ₚ claimed_indices (trace s) /\
   NoDup (claimed_indices (trace s)) /\
   successful_conversions (result s) + failed_conversions (result s) =
     Z.of_nat (length (claimed_indices (trace s))) /\
   (pdf_files env <> [] -> output_dir_ready env = true ->
    result s = aggregate env (recorded_indices (trace s)))) /\
  (exists rest,
     let s' := process_directory env (schedule ++ rest) in
     returned s' /\ cancel_requested_ s' = cancel_requested_ s /\
     forall i, i ∈ claimed_indices (trace s) -> i ∈ recorded_indices (trace s')).
Proof.
  intros s. split; [|split; [|split]].
  - intros w. destruct (late_inv_holds env schedule w) as [_ Hone].
    fold s in Hone. lia.
  - intros w Hw Hc. cbn [step]. unfold step_worker. rewrite Hw, Hc.
    state_simpl. apply list_lookup_insert_eq. now apply lookup_lt_Some in Hw.
  - intros Hret.
    pose proof (returned_all_recorded env schedule Hret) as Hperm.
    pose proof (claim_inv_holds env schedule) as (_ & Hclaimed & _).
    fold s in Hperm, Hclaimed.
    split; [exact Hperm|]. split.
    { rewrite Hclaimed, <- Permutation_rev. apply NoDup_seqZ. }
    split.
    + rewrite <- Hperm. apply returned_counts. exact Hret.
    + intros Hfiles Hready.
      now destruct (joined_run env schedule Hret Hfiles Hready)
        as ((_ & _ & _ & _ & Hres) & _).
  - destruct (process_directory_can_return env schedule) as (rest & Hret & Hc).
    exists rest. cbv zeta. split; [exact Hret|]. split; [exact Hc|].
    intros i Hi.
    rewrite (returned_all_recorded env (schedule ++ rest) Hret).
    unfold process_directory. rewrite exec_app.
    destruct (trace_grows env rest (exec env schedule initial_state)) as [new ->].
    unfold claimed_indices. rewrite omap_app. apply elem_of_app. now right.
Qed.

Lemma cancellation_witness :
  let s := process_directory one_worker_env
             (late_claim_schedule ++ [L_worker 0; L_worker 0; L_worker 0; L_main; L_main]) in
  recorded_indices (trace s) ≡ₚ claimed_indices (trace s).
Proof.
  refine (proj1 (proj1 (proj2 (proj2 (cancellation_lets_claimed_jobs_finish one_worker_env
            (late_claim_schedule ++ [L_worker 0; L_worker 0; L_worker 0; L_main; L_main])))) _)).
  reflexivity.
Defined.

(* ===================================================================== *)
(** * Part III. Further properties of the code                            *)
(* ===================================================================== *)

(** ** The converter *)

(** X1. A document that does not load, or is locked: [convert_pdf]
    returns the failure "Failed to load PDF document" with no page
    converted, and its only call is the load. *)
Theorem convert_pdf_unloadable b pf pdf_path output_dir options :
  (load_from_file b pdf_path = None \/
   exists d, load_from_file b pdf_path = Some d /\ is_locked b d = true) ->
  io_result (convert_pdf b pf pdf_path output_dir options) =
    Returned {| success := false; error_message := "Failed to load PDF document";
                pages_converted := 0 |} /\
  io_log (convert_pdf b pf pdf_path output_dir options) = [CallLoad pdf_path].
Proof.
  intros Hload. now rewrite (convert_pdf_load_failure b pf pdf_path output_dir options Hload).
Qed.

Lemma convert_pdf_unloadable_witness :
  io_log (convert_pdf (sample_backend 3 1) (lp64 4) "missing.pdf" "out" default_options)
    = [CallLoad "missing.pdf"].
Proof.
  refine (proj2 (convert_pdf_unloadable (sample_backend 3 1) (lp64 4)
                   "missing.pdf" "out" default_options _)).
  left. reflexivity.
Defined.

Lemma successes_app a b : successes (a ++ b) = successes a + successes b.
Proof.
  unfold successes. rewrite List.filter_app, length_app. lia.
Qed.

Lemma successes_none outcomes :
  Forall (fun o => o <> Returned true) outcomes -> successes outcomes = 0.
Proof.
  induction 1 as [|o outcomes Ho _ IH]; [reflexivity|].
  rewrite successes_cons, IH. destruct o as [[|]|]; simpl; [congruence|reflexivity|reflexivity].
Qed.

(** X2. Whatever the document, [convert_pdf] reports at most 999
    converted pages: from page number 1000 on every task throws while
    it builds the file name. *)
Theorem convert_pdf_at_most_999_pages b pf pdf_path output_dir options r :
  platform_ok pf ->
  io_result (convert_pdf b pf pdf_path output_dir options) = Returned r ->
  pages_converted r <= 999.
Proof.
  intros Hpf Hr.
  unfold convert_pdf, load_document, io_bind, io_call, io_lift, io_ret, io_result in Hr.
  destruct (load_from_file b pdf_path) as [d|]; simpl in Hr;
    [|injection Hr as <-; simpl; lia].
  destruct (is_locked b d); simpl in Hr; [injection Hr as <-; simpl; lia|].
  destruct (create_directories b output_dir);
    cbn -[page_tasks successes collect_results] in Hr; [|discriminate].
  rewrite collect_results_spec in Hr.
  cbn -[page_tasks successes Z.add Z.ltb] in Hr.
  assert (successes (map io_result (page_tasks b pf d pdf_path output_dir options))
          <= 999) as Hle.
  { unfold page_tasks. rewrite map_map.
    set (f := fun i => io_result (page_task b pf d pdf_path output_dir options i)).
    destruct (Z.le_gt_cases (pages b d) 999) as [Hsmall|Hbig].
    - pose proof (successes_bounds (map f (seqZ 0 (pages b d)))) as Hb.
      rewrite length_map, length_seqZ in Hb. lia.
    - replace (pages b d) with (999 + (pages b d - 999)) by lia.
      rewrite seqZ_app, map_app, successes_app by lia.
      rewrite (successes_none (map f (seqZ (0 + 999) _))).
      + pose proof (successes_bounds (map f (seqZ 0 999))) as Hb.
        rewrite length_map, length_seqZ in Hb. lia.
      + apply Forall_map, Forall_seqZ. intros i Hi. unfold f.
        apply page_task_beyond_999; [exact Hpf|lia]. }
  unfold io_result in Hle.
  destruct (0 <? _); injection Hr as <-; cbn [pages_converted with_error]; lia.
Qed.

Lemma convert_pdf_at_most_999_witness :
  exists r,
    io_result (convert_pdf (sample_backend 1001 (-1)) (lp64 4)
                 "report.pdf" "out" default_options) = Returned r /\
    pages_converted r <= 999.
Proof.
  eexists. split; [vm_compute; reflexivity|].
  apply (convert_pdf_at_most_999_pages (sample_backend 1001 (-1)) (lp64 4)
           "report.pdf" "out" default_options); [apply lp64_ok|].
  vm_compute. reflexivity.
Defined.

Lemma digit_char_inj a b :
  0 <= a <= 9 -> 0 <= b <= 9 -> digit_char a = digit_char b -> a = b.
Proof.
  intros Ha Hb Heq. unfold digit_char in Heq.
  apply (f_equal nat_of_ascii) in Heq.
  rewrite !nat_ascii_embedding in Heq by lia. lia.
Qed.

Lemma zero_pad3_inj p q :
  0 <= p <= 999 -> 0 <= q <= 999 -> zero_pad3 p = zero_pad3 q -> p = q.
Proof.
  intros Hp Hq Heq. unfold zero_pad3 in Heq.
  injection Heq as H2 H1 H0.
  apply digit_char_inj in H2; [|Z.div_mod_to_equations; lia..].
  apply digit_char_inj in H1; [|Z.div_mod_to_equations; lia..].
  apply digit_char_inj in H0; [|Z.div_mod_to_equations; lia..].
  Z.div_mod_to_equations; lia.
Qed.

(** X3. Within one document, pages 1 to 999 get pairwise different file
    names: no page image overwrites another. *)
Theorem generate_output_filename_distinct pf pdf_path p q extension :
  platform_ok pf -> 1 <= p <= 999 -> 1 <= q <= 999 -> p <> q ->
  generate_output_filename pf pdf_path p extension <>
    generate_output_filename pf pdf_path q extension.
Proof.
  intros Hpf Hp Hq Hne Heq. apply Hne.
  rewrite !generate_output_filename_in_range in Heq by assumption.
  injection Heq as Heq.
  apply String.app_inj, String.app_inj in Heq.
  apply zero_pad3_inj; [lia|lia|].
  unfold zero_pad3 in *. cbn in Heq. now injection Heq as -> -> ->.
Qed.

Lemma generate_output_filename_distinct_witness :
  generate_output_filename (lp64 4) "report.pdf" 7 "png" <>
    generate_output_filename (lp64 4) "report.pdf" 8 "png".
Proof.
  apply generate_output_filename_distinct; [apply lp64_ok|lia|lia|lia].
Defined.

(** The calls of [save_page_as_image]: the page rectangle, the render,
    then nothing more for an invalid image, else the directory creation
    and, unless that throws, the save to the given path. *)
Lemma save_page_as_image_log b p output_path options :
  exists xres yres,
    let render := [CallPageRect; CallRender xres yres] in
    let mkdir := CallCreateDirectories (path_parent output_path) in
    let format := encoder_format (output_format options) in
    (is_valid b (render_page b p xres yres) = false /\
     save_page_as_image b (Some p) output_path options = (render, Returned false)) \/
    (is_valid b (render_page b p xres yres) = true /\
     exists e, create_directories b (path_parent output_path) = Threw e /\
     save_page_as_image b (Some p) output_path options =
       (render ++ [mkdir], Threw e)) \/
    (is_valid b (render_page b p xres yres) = true /\
     exists created, create_directories b (path_parent output_path) = Returned created /\
     save_page_as_image b (Some p) output_path options =
       (render ++ [mkdir; CallSave output_path format],
        Returned (image_save b (render_page b p xres yres) output_path format))).
Proof.
  unfold save_page_as_image, io_bind, io_call, io_lift, io_ret.
  destruct (render_scale options (page_rect_width b p) (page_rect_height b p))
    as [scale_x scale_y].
  exists (PrimFloat.mul scale_x 72), (PrimFloat.mul scale_y 72). cbv zeta.
  destruct (is_valid b _) eqn:Hvalid; cbn [negb].
  - destruct (create_directories b (path_parent output_path)) as [created|e] eqn:Hdir.
    + right. right. split; [reflexivity|]. exists created. split; reflexivity.
    + right. left. split; [reflexivity|]. exists e. split; reflexivity.
  - left. split; reflexivity.
Qed.

Lemma encoder_format_not_jpg output_format : encoder_format output_format <> "jpg".
Proof.
  unfold encoder_format.
  destruct (String.eqb_spec output_format "png"); [discriminate|].
  destruct (String.eqb_spec output_format "jpg"); [discriminate|].
  destruct (String.eqb output_format "jpeg"); cbn [orb]; [discriminate|assumption].
Qed.

(** X4. [save_page_as_image] on an invalid render result returns
    [false] and neither creates a directory nor saves; on a null page it
    returns [false] without any call. *)
Theorem save_page_as_image_invalid_render b pg output_path options :
  (forall p xres yres, pg = Some p -> is_valid b (render_page b p xres yres) = false) ->
  io_result (save_page_as_image b pg output_path options) = Returned false /\
  Forall (fun c => is_save c = false /\ is_create_directories c = false)
    (io_log (save_page_as_image b pg output_path options)) /\
  (pg = None -> io_log (save_page_as_image b pg output_path options) = []).
Proof.
  intros Hinvalid. destruct pg as [p|].
  - destruct (save_page_as_image_log b p output_path options)
      as (xres & yres & [(_ & ->)|[(Hvalid & _)|(Hvalid & _)]]);
      try (rewrite (Hinvalid p xres yres eq_refl) in Hvalid; discriminate).
    split; [reflexivity|]. split; [|discriminate].
    repeat constructor.
  - split; [reflexivity|]. split; [constructor|reflexivity].
Qed.

Lemma save_page_as_image_invalid_witness :
  io_result (save_page_as_image blank_backend (Some tt) "out/a.png" default_options)
    = Returned false.
Proof.
  refine (proj1 (save_page_as_image_invalid_render blank_backend (Some tt)
                   "out/a.png" default_options _)).
  reflexivity.
Defined.

Lemma page_task_saves b pf doc pdf_path output_dir options i path format :
  In (CallSave path format)
     (io_log (page_task b pf doc pdf_path output_dir options i)) ->
  exists name,
    generate_output_filename pf pdf_path (i + 1) (output_format options)
      = Returned name /\
    path = path_append output_dir name /\
    format = encoder_format (output_format options).
Proof.
  unfold page_task, io_bind, io_call, io_lift, io_ret, io_log.
  destruct (create_page b doc i) as [p|]; cbn [fst app];
    [|intros [Hc|[]]; discriminate].
  destruct (generate_output_filename pf pdf_path (i + 1) (output_format options))
    as [name|e]; cbn [fst app]; [|intros [Hc|[]]; discriminate].
  destruct (save_page_as_image_log b p (path_append output_dir name) options)
    as (xres & yres & [(_ & ->)|[(_ & e & _ & ->)|(_ & c & _ & ->)]]);
    cbn [fst app In]; intros Hin;
    repeat (destruct Hin as [Hin|Hin]; try discriminate); try contradiction.
  injection Hin as <- <-. now exists name.
Qed.

(** X5. Every image [convert_pdf] saves goes to the output directory
    under the name generated for one of the document's pages, and is
    encoded as the configured format, "jpg" being passed to the encoder
    as "jpeg". *)
Theorem convert_pdf_saves_generated_names b pf pdf_path output_dir options path format :
  In (CallSave path format)
     (io_log (convert_pdf b pf pdf_path output_dir options)) ->
  exists d i name,
    load_from_file b pdf_path = Some d /\ 0 <= i < pages b d /\
    generate_output_filename pf pdf_path (i + 1) (output_format options)
      = Returned name /\
    path = path_append output_dir name /\
    format = encoder_format (output_format options) /\
    format <> "jpg".
Proof.
  unfold convert_pdf, load_document, io_bind, io_call, io_lift, io_ret, io_log.
  destruct (load_from_file b pdf_path) as [d|]; cbn [fst app In];
    [|intros [Hc|[]]; discriminate].
  destruct (is_locked b d); cbn [fst app In]; [intros [Hc|[]]; discriminate|].
  destruct (create_directories b output_dir); cbn [fst app In];
    [|intros [Hc|[Hc|[]]]; discriminate].
  intros [Hc|[Hc|Hin]]; try discriminate.
  apply in_concat in Hin as (log & Hlog & Hin).
  apply in_map_iff in Hlog as (task & <- & Htask).
  unfold page_tasks in Htask. apply in_map_iff in Htask as (i & <- & Hi).
  apply list_elem_of_In, elem_of_seqZ in Hi.
  destruct (page_task_saves _ _ _ _ _ _ _ _ _ Hin) as (name & Hname & Hpath & Hformat).
  exists d, i, name. repeat split; try assumption; try lia.
  rewrite Hformat. apply encoder_format_not_jpg.
Qed.

Lemma convert_pdf_saves_witness :
  exists i name,
    generate_output_filename (lp64 4) "a/report.pdf" (i + 1) "png" = Returned name /\
    "out/report_page_003.png" = path_append "out" name.
Proof.
  destruct (convert_pdf_saves_generated_names (sample_backend 3 1) (lp64 4)
              "a/report.pdf" "out" default_options
              "out/report_page_003.png" "png")
    as (d & i & name & _ & _ & Hname & Hpath & _).
  - vm_compute. do 12 right. left. reflexivity.
  - exists i, name. split; [exact Hname|exact Hpath].
Defined.

(** X6. A result of [convert_page] counts one page when it is a success
    and none otherwise; a success means the page number was in range,
    that page was created, and the image was saved to the given path. *)
Theorem convert_page_counts_one b pdf_path page_number output_path options r :
  io_result (convert_page b pdf_path page_number output_path options) = Returned r ->
  pages_converted r = (if success r then 1 else 0) /\
  (success r = true ->
   exists d, load_from_file b pdf_path = Some d /\
     1 <= page_number <= pages b d /\
     In (CallCreatePage (page_number - 1))
        (io_log (convert_page b pdf_path page_number output_path options)) /\
     In (CallSave output_path (encoder_format (output_format options)))
        (io_log (convert_page b pdf_path page_number output_path options))).
Proof.
  unfold convert_page, load_document, io_bind, io_call, io_ret, io_result, io_log.
  destruct (load_from_file b pdf_path) as [d|]; cbn [fst snd app];
    [|intros [= <-]; split; [reflexivity|discriminate]].
  destruct (is_locked b d); cbn [fst snd app];
    [intros [= <-]; split; [reflexivity|discriminate]|].
  destruct (Z.ltb_spec page_number 1); cbn [orb fst snd app];
    [intros [= <-]; split; [reflexivity|discriminate]|].
  destruct (Z.ltb_spec (pages b d) page_number); cbn [fst snd app];
    [intros [= <-]; split; [reflexivity|discriminate]|].
  destruct (create_page b d (page_number - 1)) as [p|]; cbn [fst snd app];
    [|intros [= <-]; split; [reflexivity|discriminate]].
  destruct (save_page_as_image_log b p output_path options)
    as (xres & yres & [(_ & ->)|[(_ & e & _ & ->)|(_ & c & _ & ->)]]);
    cbn [fst snd app]; try discriminate;
    [intros [= <-]; split; [reflexivity|discriminate]|].
  destruct (image_save b _ _ _); cbn [fst snd app]; intros [= <-];
    (split; [reflexivity|]); [|discriminate].
  intros _. exists d. split; [reflexivity|]. split; [lia|].
  cbn [In]. split; auto 10.
Qed.

Lemma convert_page_counts_one_witness :
  pages_converted {| success := true; error_message := ""; pages_converted := 1 |} =
    (if success {| success := true; error_message := ""; pages_converted := 1 |}
     then 1 else 0).
Proof.
  refine (proj1 (convert_page_counts_one (sample_backend 3 1) "a/report.pdf" 3
                   "out/x.png" default_options _ _)).
  reflexivity.
Defined.

(** X7. The page semaphore admits between 2 and 8 page tasks at a time,
    also when the hardware concurrency is not detected, and as many as
    the hardware concurrency when that lies between 2 and 8. *)
Theorem max_concurrent_pages_bounds pf :
  2 <= max_concurrent_pages pf <= 8 /\
  (2 <= hardware_concurrency pf <= 8 ->
   max_concurrent_pages pf = hardware_concurrency pf).
Proof.
  unfold max_concurrent_pages. split; [lia|].
  intros Hcores. rewrite int_of_unsigned_small by lia. lia.
Qed.

Lemma max_concurrent_pages_witness : max_concurrent_pages (lp64 4) = 4.
Proof.
  refine (proj2 (max_concurrent_pages_bounds (lp64 4)) _). simpl. lia.
Defined.

(** ** The batch processor *)

(** X8. At every point of every run the claimed indices are valid and
    pairwise different, and no index is both recorded and still held, or
    held by two workers: no file is converted twice. *)
Theorem files_claimed_once env schedule :
  let s := process_directory env schedule in
  NoDup (claimed_indices (trace s)) /\
  (forall i, i ∈ claimed_indices (trace s) -> 0 <= i < file_count env) /\
  NoDup (recorded_indices (trace s) ++ in_flight (workers s)).
Proof.
  intros s.
  pose proof (claim_inv_holds env schedule) as (Hpos & Hclaimed & Hperm).
  fold s in Hpos, Hclaimed, Hperm.
  assert (NoDup (claimed_indices (trace s))) as Hnodup.
  { rewrite Hclaimed, <- Permutation_rev. apply NoDup_seqZ. }
  split; [exact Hnodup|]. split.
  - intros i Hi. rewrite Hclaimed in Hi.
    apply list_elem_of_In, in_rev, list_elem_of_In, elem_of_seqZ in Hi. lia.
  - now rewrite Hperm.
Qed.

Lemma aggregate_nonneg env indices :
  0 <= successful_conversions (aggregate env indices) /\
  0 <= failed_conversions (aggregate env indices).
Proof.
  induction indices as [|i indices [Hs Hf]]; [cbn; lia|].
  cbn [aggregate]. unfold record_result.
  destruct (success (convert env (file_at env i)));
    cbn [successful_conversions failed_conversions]; lia.
Qed.

Lemma returned_total env schedule :
  let s := process_directory env schedule in
  returned s -> total_pdfs (result s) = file_count env.
Proof.
  intros s Hret.
  pose proof (phase_inv_holds env schedule) as Hphase.
  fold s in Hphase. unfold phase_inv in Hphase.
  unfold returned in Hret. rewrite Hret in Hphase.
  destruct Hphase as [(_ & _ & _ & ->)|[(_ & _ & _ & _ & ->)
                     |((_ & _ & _ & _ & ->) & _)]];
    try reflexivity.
  now destruct (aggregate_counts env (recorded_indices (trace s))) as (? & _).
Qed.

(** X9. Whatever the schedule, cancelled or not, a returned report has
    [total_pdfs] the number of files found, counters that are not
    negative, and never counts more conversions than files. *)
Theorem report_counts_within_total env schedule :
  let s := process_directory env schedule in
  returned s ->
  total_pdfs (result s) = file_count env /\
  0 <= successful_conversions (result s) /\
  0 <= failed_conversions (result s) /\
  successful_conversions (result s) + failed_conversions (result s)
    <= total_pdfs (result s).
Proof.
  intros s Hret.
  pose proof (returned_total env schedule Hret) as Htotal.
  pose proof (returned_counts env schedule Hret) as Hsum.
  pose proof (returned_all_recorded env schedule Hret) as Hperm.
  pose proof (claim_inv_holds env schedule) as (Hpos & Hclaimed & _).
  pose proof (phase_inv_holds env schedule) as Hphase.
  fold s in Htotal, Hsum, Hperm, Hpos, Hclaimed, Hphase.
  split; [exact Htotal|].
  assert (0 <= successful_conversions (result s) /\
          0 <= failed_conversions (result s)) as [Hs Hf].
  { unfold phase_inv in Hphase. unfold returned in Hret. rewrite Hret in Hphase.
    destruct Hphase as [(_ & _ & _ & ->)|[(_ & _ & _ & _ & ->)
                       |((_ & _ & _ & _ & ->) & _)]];
      try (cbn; lia).
    apply aggregate_nonneg. }
  split; [exact Hs|]. split; [exact Hf|].
  rewrite Hsum, Htotal, Hperm, Hclaimed, length_rev, length_seqZ.
  unfold file_count. lia.
Qed.

Lemma report_counts_witness :
  let s := process_directory one_worker_env
             (late_claim_schedule ++ [L_worker 0; L_worker 0; L_worker 0; L_main; L_main]) in
  successful_conversions (result s) + failed_conversions (result s)
    <= total_pdfs (result s).
Proof.
  refine (proj2 (proj2 (proj2 (report_counts_within_total one_worker_env
            (late_claim_schedule ++ [L_worker 0; L_worker 0; L_worker 0; L_main; L_main])
            _)))).
  reflexivity.
Defined.

Lemma same_report_trans r1 r2 r3 :
  same_report r1 r2 -> same_report r2 r3 -> same_report r1 r3.
Proof.
  intros (? & ? & ? & ? & ?) (? & ? & ? & ? & ?). unfold same_report.
  repeat split; try congruence. etransitivity; eassumption.
Qed.

(** The report built from recorded outcomes is the expected report of
    the recorded files. *)
Lemma aggregate_expected env indices :
  same_report (aggregate env indices)
    (expected_report env (map (file_at env) indices)).
Proof.
  unfold same_report.
  induction indices as [|i indices (Ht & Hs & Hf & Hp & He)].
  - repeat split; reflexivity.
  - cbn [aggregate map]. unfold record_result, expected_report, pages_of in *.
    cbn [total_pdfs successful_conversions failed_conversions
         total_pages_converted errors List.filter] in *.
    unfold fails, converts in *.
    destruct (success (convert env (file_at env i))); cbn [negb];
      cbn [total_pdfs successful_conversions failed_conversions
           total_pages_converted errors map fold_right length];
      repeat split; try assumption; try lia.
    rewrite He. symmetry. apply Permutation_cons_append.
Qed.

(** The expected report does not depend on the order of the files. *)
Lemma expected_report_perm env files files' :
  files ≡ₚ files' ->
  same_report (expected_report env files) (expected_report env files').
Proof.
  induction 1 as [|f files files' _ (Ht & Hs & Hf & Hp & He)
                 |f g files|files1 files2 files3 _ IH1 _ IH2];
    [unfold same_report in *..|].
  - repeat split; reflexivity.
  - unfold expected_report, pages_of in *.
    cbn [total_pdfs successful_conversions failed_conversions
         total_pages_converted errors List.filter] in *.
    unfold fails in *. destruct (converts env f); cbn [negb];
      cbn [map fold_right length]; repeat split; try assumption; try lia.
    now rewrite He.
  - unfold expected_report, pages_of.
    cbn [total_pdfs successful_conversions failed_conversions
         total_pages_converted errors List.filter].
    unfold fails. destruct (converts env f), (converts env g); cbn [negb];
      cbn [map fold_right length]; repeat split; try reflexivity; try lia.
    apply perm_swap.
  - eapply same_report_trans; eassumption.
Qed.

Lemma files_by_index env :
  map (file_at env) (seqZ 0 (file_count env)) = pdf_files env.
Proof.
  apply list_eq. intros k. change map with (@fmap list _) .
  rewrite list_lookup_fmap. unfold file_count.
  destruct (pdf_files env !! k) as [f|] eqn:Hk.
  - rewrite lookup_seqZ_lt by (apply lookup_lt_Some in Hk; lia).
    cbn. unfold file_at. rewrite Z.add_0_l, Nat2Z.id, Hk. reflexivity.
  - rewrite lookup_seqZ_ge by (apply lookup_ge_None in Hk; lia). reflexivity.
Qed.

(** A run that was not cancelled, with at least one worker thread,
    records every file. *)
Lemma complete_run_records_all env schedule :
  let s := process_directory env schedule in
  returned s -> cancel_requested_ s = false ->
  pdf_files env <> [] -> output_dir_ready env = true -> 1 <= num_threads_ env ->
  recorded_indices (trace s) ≡ₚ seqZ 0 (file_count env) /\
  result s = aggregate env (recorded_indices (trace s)).
Proof.
  intros s Hret Hcancel Hfiles Hready Hthreads.
  destruct (joined_run env schedule Hret Hfiles Hready)
    as ((_ & _ & _ & _ & Hres) & Hall & Hperm & Hclaimed & Hlen).
  fold s in Hres, Hall, Hperm, Hclaimed, Hlen.
  split; [|exact Hres].
  pose proof (exit_inv_holds env schedule Hcancel) as Hexit. fold s in Hexit.
  specialize (Hlen Hcancel).
  destruct (workers s) as [|p ws] eqn:Hws; [cbn in Hlen; lia|].
  assert (p = W_exit) as -> by (apply (all_exited_lookup _ 0%nat _ Hall); reflexivity).
  specialize (Hexit 0%nat eq_refl).
  rewrite Hperm, Hclaimed, <- Permutation_rev.
  now rewrite Z.min_r by lia.
Qed.

(** X10. The report of a run that was not cancelled, with the output
    directory prepared and at least one worker thread, does not depend
    on the interleaving: it counts the files that convert, the files
    that do not, the pages of the former, and holds one error entry
    "file: message" per file that does not convert, in some order. *)
Theorem complete_run_report env schedule :
  let s := process_directory env schedule in
  returned s -> cancel_requested_ s = false ->
  pdf_files env <> [] -> output_dir_ready env = true -> 1 <= num_threads_ env ->
  same_report (result s) (expected_report env (pdf_files env)).
Proof.
  intros s Hret Hcancel Hfiles Hready Hthreads.
  destruct (complete_run_records_all env schedule Hret Hcancel Hfiles Hready Hthreads)
    as (Hall & Hres).
  fold s in Hall, Hres. rewrite Hres.
  eapply same_report_trans; [apply aggregate_expected|].
  rewrite <- (files_by_index env) at 1.
  apply expected_report_perm. now rewrite Hall.
Qed.

Lemma complete_run_report_witness :
  same_report (result (process_directory scenario_A_env two_worker_schedule))
    (expected_report scenario_A_env ["a.pdf"; "b.pdf"; "c.pdf"]).
Proof.
  apply (complete_run_report scenario_A_env two_worker_schedule);
    [reflexivity|reflexivity|discriminate|reflexivity|simpl; lia].
Defined.

(** X11. In a returned run that went through the workers, cancelled or
    not, there are as many error entries as failed conversions, and
    every entry is the "file: message" of a claimed file whose
    conversion failed: a converted file never appears among the errors. *)
Theorem errors_are_failed_files env schedule :
  let s := process_directory env schedule in
  returned s -> pdf_files env <> [] -> output_dir_ready env = true ->
  Z.of_nat (length (errors (result s))) = failed_conversions (result s) /\
  forall e, e ∈ errors (result s) ->
    exists i, i ∈ claimed_indices (trace s) /\
      converts env (file_at env i) = false /\
      e = error_entry env (file_at env i).
Proof.
  intros s Hret Hfiles Hready.
  destruct (joined_run env schedule Hret Hfiles Hready)
    as ((_ & _ & _ & _ & Hres) & _ & Hperm & _).
  fold s in Hres, Hperm. rewrite Hres. split.
  - now destruct (aggregate_counts env (recorded_indices (trace s))) as (_ & _ & ?).
  - intros e He.
    destruct (aggregate_expected env (recorded_indices (trace s)))
      as (_ & _ & _ & _ & Herr).
    rewrite Herr in He. cbn [errors expected_report] in He.
    apply list_elem_of_In, in_map_iff in He as (f & <- & Hf).
    apply filter_In in Hf as (Hf & Hfail).
    apply in_map_iff in Hf as (i & <- & Hi).
    exists i. split; [rewrite <- Hperm; now apply list_elem_of_In|].
    split; [|reflexivity]. unfold fails in Hfail. now destruct (converts env _).
Qed.

Lemma errors_are_failed_files_witness :
  Z.of_nat (length (errors (result (process_directory scenario_A_env two_worker_schedule))))
    = failed_conversions (result (process_directory scenario_A_env two_worker_schedule)).
Proof.
  refine (proj1 (errors_are_failed_files scenario_A_env two_worker_schedule _ _ _));
    [reflexivity|discriminate|reflexivity].
Defined.

(** *** Progress callbacks *)

Lemma awaiting_app ws ws' : awaiting (ws ++ ws') = awaiting ws ++ awaiting ws'.
Proof. unfold awaiting. now rewrite map_app, concat_app. Qed.

Lemma awaiting_insert ws w p p' :
  ws !! w = Some p ->
  unannounced p ++ awaiting (<[w := p']> ws) ≡ₚ unannounced p' ++ awaiting ws.
Proof.
  revert w. induction ws as [|q ws IH]; intros [|w] Hw; try discriminate.
  - injection Hw as ->. unfold awaiting. simpl.
    fold (awaiting ws). rewrite !app_assoc. f_equiv. apply Permutation_app_comm.
  - simpl in Hw. specialize (IH w Hw). unfold awaiting in *. simpl.
    rewrite !app_assoc, (Permutation_app_comm (unannounced p) (unannounced q)),
      (Permutation_app_comm (unannounced p') (unannounced q)), <- !app_assoc.
    now f_equiv.
Qed.

Lemma awaiting_insert_same ws w p p' :
  ws !! w = Some p -> unannounced p = unannounced p' ->
  awaiting (<[w := p']> ws) ≡ₚ awaiting ws.
Proof.
  intros Hw Heq. pose proof (awaiting_insert ws w p p' Hw) as H.
  rewrite Heq in H. now apply Permutation_app_inv_l in H.
Qed.

Lemma all_exited_awaiting ws : forallb exited ws = true -> awaiting ws = [].
Proof.
  induction ws as [|p ws IH]; [reflexivity|]. simpl. intros H.
  apply andb_true_iff in H as [Hp Hws]. unfold awaiting in *. simpl.
  rewrite (IH Hws). now destruct p.
Qed.

Lemma progress_inv_step env l s :
  0 <= file_index s ->
  progress_inv env s -> progress_inv env (step env l s).
Proof.
  intros Hfi (Hok & Hrange & Hperm). destruct l as [|w|]; cbn [step].
  - (* the calling thread *)
    assert (progress_infos (trace (step_main env s)) = progress_infos (trace s) /\
            awaiting (workers (step_main env s)) = awaiting (workers s)) as [Hi Ha].
    { unfold step_main. destruct (main s); state_simpl;
        repeat match goal with
               | |- context [match ?c with _ => _ end] => destruct c; state_simpl
               end;
        split; try reflexivity.
      rewrite awaiting_app. unfold awaiting at 2. cbn. now rewrite app_nil_r. }
    destruct (step_main_frame env s) as (_ & _ & Hc & _).
    unfold progress_inv, announced_indices in *. now rewrite Hi, Ha, Hc.
  - unfold step_worker.
    destruct (workers s !! w) as [[| |i|i|]|] eqn:Hw;
      try (split; [|split]; assumption).
    + (* the loop condition *)
      assert (forall p, unannounced W_check = unannounced p ->
                progress_inv env (set_worker s w p)) as Hkeep.
      { intros p Hsame. unfold progress_inv. state_simpl.
        pose proof (awaiting_insert_same _ _ _ _ Hw Hsame) as Hsame'.
        split; [exact Hok|]. split.
        - intros i. rewrite Hsame'. apply Hrange.
        - destruct (has_progress_callback env); [now rewrite Hsame'|exact Hperm]. }
      destruct (cancel_requested_ s); now apply Hkeep.
    + (* fetch_add *)
      destruct (Z.leb_spec (file_count env) (file_index s)) as [Hend|Hmore];
        unfold progress_inv, announced_indices in *; state_simpl.
      * pose proof (awaiting_insert_same _ _ W_fetch W_exit Hw eq_refl) as Hsame'.
        split; [exact Hok|]. split.
        -- intros i. rewrite Hsame'. apply Hrange.
        -- destruct (has_progress_callback env); [now rewrite Hsame'|exact Hperm].
      * pose proof (awaiting_insert _ _ _ (W_progress (file_index s)) Hw) as Hins.
        cbn [unannounced app] in Hins.
        split; [exact Hok|]. split.
        -- intros i. rewrite Hins. intros [->|Hi]%elem_of_cons; [lia|now apply Hrange].
        -- destruct (has_progress_callback env); [|exact Hperm].
           unfold claimed_indices in *. cbn [omap list_omap].
           fold (omap (fun e => match e with EvClaim _ i _ => Some i | _ => None end)
                   (trace s)).
           rewrite Hins, <- Hperm. symmetry. apply Permutation_middle.
    + (* the progress block *)
      pose proof (awaiting_insert _ _ _ (W_convert i) Hw) as Hins.
      cbn [unannounced app] in Hins.
      assert (0 <= i < file_count env) as Hi.
      { apply Hrange. rewrite <- Hins. left. }
      assert (forall j, j ∈ awaiting (<[w := W_convert i]> (workers s)) ->
                0 <= j < file_count env) as Hrange'.
      { intros j Hj. apply Hrange. rewrite <- Hins. now right. }
      unfold progress_inv, announced_indices in *.
      destruct (has_progress_callback env); state_simpl.
      * unfold progress_infos in *. cbn [omap list_omap map current_file].
        fold (omap (fun e => match e with EvProgress _ info => Some info | _ => None end)
                (trace s)).
        split.
        { constructor; [|exact Hok]. unfold info_ok.
          cbn [current_file total_files current_filename].
          replace (i + 1 - 1) with i by lia. repeat split; lia || reflexivity. }
        split; [exact Hrange'|].
        replace (i + 1 - 1) with i by lia.
        rewrite <- Hperm, <- Hins. apply Permutation_middle.
      * split; [exact Hok|]. split; [exact Hrange'|exact Hperm].
    + (* the locked update *)
      unfold progress_inv, announced_indices in *. state_simpl.
      pose proof (awaiting_insert_same _ _ (W_convert i) W_check Hw eq_refl) as Hsame'.
      split; [exact Hok|]. split.
      * intros j. rewrite Hsame'. apply Hrange.
      * destruct (has_progress_callback env); [now rewrite Hsame'|exact Hperm].
  - exact (conj Hok (conj Hrange Hperm)).
Qed.

Lemma progress_inv_holds env schedule :
  progress_inv env (process_directory env schedule).
Proof.
  induction schedule as [|l schedule IH] using rev_ind.
  - unfold progress_inv. cbn. split; [constructor|]. split.
    + intros i Hi. inversion Hi.
    + now destruct (has_progress_callback env).
  - rewrite process_directory_snoc. apply progress_inv_step; [|exact IH].
    apply (claim_inv_holds env schedule).
Qed.

Lemma step_main_progress env s :
  progress_infos (trace (step_main env s)) = progress_infos (trace s).
Proof.
  unfold step_main. destruct (main s); state_simpl;
    repeat match goal with
           | |- context [match ?c with _ => _ end] => destruct c; state_simpl
           end;
    reflexivity.
Qed.

Lemma convert_inv_step env l s : convert_inv env s -> convert_inv env (step env l s).
Proof.
  intros Hinv Hcb. specialize (Hinv Hcb). destruct l as [|w0|]; cbn [step].
  - intros w i Hw. unfold announced_indices. rewrite step_main_progress.
    destruct (step_main_frame env s) as (_ & _ & _ & _ & _ & [Heq|Heq]);
      rewrite Heq in Hw; [now apply (Hinv w)|].
    apply lookup_launched in Hw as [Hw|?]; [now apply (Hinv w)|discriminate].
  - unfold step_worker.
    destruct (workers s !! w0) as [[| |j|j|]|] eqn:Hw0; try exact Hinv;
      rewrite ?Hcb;
      repeat match goal with
             | |- context [if ?c then _ else _] => destruct c
             end;
      intros w i Hw; state_simpl;
      rewrite (lookup_insert_worker _ _ _ _ _ Hw0) in Hw;
      unfold announced_indices, progress_infos in *;
      cbn [omap list_omap map current_file];
      destruct (decide (w = w0)); try discriminate;
      try (now apply (Hinv w)).
    + injection Hw as <-. replace (j + 1 - 1) with j by lia. left.
    + right. now apply (Hinv w).
  - exact Hinv.
Qed.

Lemma convert_inv_holds env schedule : convert_inv env (process_directory env schedule).
Proof.
  apply invariant_holds; [|intros l s; apply convert_inv_step].
  intros _ w i Hw. discriminate.
Qed.

(** X12. With a progress callback every claimed file is announced once,
    before its conversion starts, with [current_file] its index plus
    one, between 1 and [total_files], [total_files] the number of files
    and [current_filename] the stem of the file; when the call has
    returned the announced files are exactly the claimed ones. Without
    a callback nothing is announced. *)
Theorem progress_announces_each_claim env schedule :
  let s := process_directory env schedule in
  Forall (info_ok env) (progress_infos (trace s)) /\
  (has_progress_callback env = false -> progress_infos (trace s) = []) /\
  (has_progress_callback env = true ->
   NoDup (announced_indices (trace s)) /\
   (forall i, i ∈ announced_indices (trace s) -> i ∈ claimed_indices (trace s)) /\
   (forall w i, workers s !! w = Some (W_convert i) ->
                i ∈ announced_indices (trace s)) /\
   (returned s -> announced_indices (trace s) ≡ₚ claimed_indices (trace s))).
Proof.
  intros s.
  pose proof (progress_inv_holds env schedule) as (Hok & _ & Hperm).
  pose proof (claim_inv_holds env schedule) as (_ & Hclaimed & _).
  pose proof (phase_inv_holds env schedule) as Hphase.
  pose proof (convert_inv_holds env schedule) as Hconvert.
  fold s in Hok, Hperm, Hclaimed, Hphase, Hconvert.
  split; [exact Hok|]. split.
  - intros Hcb. now rewrite Hcb in Hperm.
  - intros Hcb. rewrite Hcb in Hperm.
    assert (NoDup (claimed_indices (trace s))) as Hnodup.
    { rewrite Hclaimed, <- Permutation_rev. apply NoDup_seqZ. }
    split; [|split; [|split]].
    + rewrite <- Hperm in Hnodup. now apply NoDup_app in Hnodup as (? & _).
    + intros i Hi. rewrite <- Hperm. apply elem_of_app. now left.
    + exact (Hconvert Hcb).
    + intros Hret. unfold phase_inv in Hphase.
      unfold returned in Hret. rewrite Hret in Hphase.
      assert (awaiting (workers s) = []) as Hnone.
      { destruct Hphase as [(_ & (-> & _) & _)|[(_ & _ & (-> & _) & _)|(_ & Hall & _)]];
          [reflexivity|reflexivity|now apply all_exited_awaiting]. }
      now rewrite Hnone, app_nil_r in Hperm.
Qed.

Lemma progress_announces_witness :
  announced_indices (trace (process_directory (sample_env ["a.pdf"; "b.pdf"; "c.pdf"] true 2)
                              two_worker_schedule))
  ≡ₚ claimed_indices (trace (process_directory (sample_env ["a.pdf"; "b.pdf"; "c.pdf"] true 2)
                               two_worker_schedule)).
Proof.
  refine (proj2 (proj2 (proj2 (proj2 (proj2 (progress_announces_each_claim
            (sample_env ["a.pdf"; "b.pdf"; "c.pdf"] true 2) two_worker_schedule)) _))) _);
    reflexivity.
Defined.

(** *** The worker pool *)

Lemma pool_bound_step env l s :
  phase_inv env s ->
  Z.of_nat (length (workers s)) <= Z.max 0 (num_threads_ env) ->
  Z.of_nat (length (workers (step env l s))) <= Z.max 0 (num_threads_ env).
Proof.
  intros Hphase Hle. destruct l as [|w|]; cbn [step].
  - unfold phase_inv in Hphase. unfold step_main.
    destruct (main s) as [| |i|i| |]; state_simpl;
      repeat match goal with
             | |- context [match ?c with _ => _ end] => destruct c; state_simpl
             end;
      try exact Hle.
    destruct Hphase as (_ & Hlen & Hlt). rewrite length_app. cbn [length]. lia.
  - now destruct (step_worker_frame env w s) as (_ & -> & _).
  - exact Hle.
Qed.

(** X13. At no point of a run are there more workers than
    [num_threads_] (none when it is not positive), and every worker was
    spawned by the launching loop, once. *)
Theorem pool_never_exceeds_thread_count env schedule :
  let s := process_directory env schedule in
  Z.of_nat (length (workers s)) <= Z.max 0 (num_threads_ env) /\
  spawn_count (trace s) = length (workers s).
Proof.
  cbv zeta. split.
  - induction schedule as [|l schedule IH] using rev_ind; [cbn; lia|].
    rewrite process_directory_snoc.
    apply pool_bound_step; [apply phase_inv_holds|exact IH].
  - pose proof (phase_inv_holds env schedule) as Hphase.
    unfold phase_inv, running, idle in Hphase.
    destruct (main (process_directory env schedule));
      try (destruct Hphase as ((-> & -> & _) & _); reflexivity);
      try (destruct Hphase as ((_ & _ & _ & -> & _) & _); reflexivity).
    destruct Hphase as [(_ & (-> & -> & _) & _)|[(_ & _ & (-> & -> & _) & _)
                       |((_ & _ & _ & -> & _) & _)]]; reflexivity.
Qed.

(** *** Completion *)

(** X14. Joining never waits for ever: every run, at any point and
    cancelled or not, can be continued to the return of
    [process_directory] without raising the flag; if the flag was not
    raised, the output directory is prepared and there is at least one
    worker thread, the returned report is the expected report of all the
    files found. *)
Theorem every_run_can_finish env schedule :
  exists rest,
    let s' := process_directory env (schedule ++ rest) in
    returned s' /\
    cancel_requested_ s' = cancel_requested_ (process_directory env schedule) /\
    (cancel_requested_ s' = false -> pdf_files env <> [] ->
     output_dir_ready env = true -> 1 <= num_threads_ env ->
     same_report (result s') (expected_report env (pdf_files env))).
Proof.
  destruct (process_directory_can_return env schedule) as (rest & Hret & Hflag).
  exists rest. cbv zeta. split; [exact Hret|]. split; [exact Hflag|].
  intros Hcancel Hfiles Hready Hthreads.
  destruct (complete_run_records_all env (schedule ++ rest)
              Hret Hcancel Hfiles Hready Hthreads) as (Hall & Hres).
  rewrite Hres.
  eapply same_report_trans; [apply aggregate_expected|].
  rewrite <- (files_by_index env) at 1.
  apply expected_report_perm. now rewrite Hall.
Qed.

Lemma every_run_can_finish_witness :
  exists rest,
    returned (process_directory scenario_A_env ([L_main; L_main; L_main] ++ rest)).
Proof.
  destruct (every_run_can_finish scenario_A_env [L_main; L_main; L_main])
    as (rest & Hret & _).
  exists rest. exact Hret.
Defined.

(** ** [FileUtils] *)

Example find_pdf_files_sample :
  find_pdf_files sample_fs "in" = Returned ["in/a.pdf"; "in/sub/B.PDF"] /\
  find_pdf_files sample_fs "elsewhere" = Returned [].
Proof. split; reflexivity. Qed.

Lemma string_tolower_length s : String.length (string_tolower s) = String.length s.
Proof. induction s as [|c s IH]; [reflexivity|]. cbn. now rewrite IH. Qed.

(** The stem and the extension split the file name at its last period. *)
Lemma last_dot_split s :
  match before_last_dot s, from_last_dot s with
  | Some pre, Some e => pre +:+ e = s /\ e <> EmptyString
  | None, None => True
  | _, _ => False
  end.
Proof.
  induction s as [|c s IH]; [exact I|]. cbn [before_last_dot from_last_dot].
  destruct (before_last_dot s) as [pre|], (from_last_dot s) as [e|]; try contradiction.
  - destruct IH as [<- He]. split; [reflexivity|exact He].
  - destruct (Ascii.eqb c dot); [|exact I]. split; [reflexivity|discriminate].
Qed.

Lemma stem_extension p :
  path_stem p +:+ path_extension p = path_filename p /\
  (path_extension p <> EmptyString -> path_stem p <> EmptyString).
Proof.
  unfold path_stem, path_extension.
  destruct (String.eqb (path_filename p) "." || String.eqb (path_filename p) "..").
  - split; [|congruence]. generalize (path_filename p).
    induction s as [|c s IH]; [reflexivity|].
    change (String c (s +:+ "") = String c s). now rewrite IH.
  - destruct (path_filename p) as [|c rest]; [split; [reflexivity|congruence]|].
    pose proof (last_dot_split rest) as Hsplit.
    destruct (before_last_dot rest) as [pre|], (from_last_dot rest) as [e|];
      try contradiction.
    + destruct Hsplit as [<- _]. split; [reflexivity|discriminate].
    + split; [|congruence]. generalize (String c rest).
      induction s as [|x s IH]; [reflexivity|].
      change (String x (s +:+ "") = String x s). now rewrite IH.
Qed.

Lemma filtered_paths_sublist entries :
  sublist (map entry_path (List.filter is_pdf_entry entries)) (map entry_path entries).
Proof.
  induction entries as [|e es IH]; [constructor|].
  cbn [List.filter map]. destruct (is_pdf_entry e); cbn [map];
    [now apply sublist_skip|now apply sublist_cons].
Qed.

(** X15. [find_pdf_files] returns nothing for a path that is not a
    directory; otherwise it returns, in iteration order, exactly the
    regular files whose extension is ".pdf" in any letter case. Every
    file found has a name made of a non-empty stem and that four
    character extension, so a directory named "x.pdf" or a file
    named ".pdf" is not taken. *)
Theorem find_pdf_files_spec fs directory files :
  find_pdf_files fs directory = Returned files ->
  (FileUtils_is_directory fs directory = Returned false -> files = []) /\
  sublist files (map entry_path (fs_entries fs directory)) /\
  (forall f, f ∈ files <->
     FileUtils_is_directory fs directory = Returned true /\
     exists e, e ∈ fs_entries fs directory /\ entry_path e = f /\
       entry_is_regular_file e = true /\
       string_tolower (path_extension f) = ".pdf") /\
  (forall f, f ∈ files ->
     get_filename_without_extension f <> EmptyString /\
     path_filename f = get_filename_without_extension f +:+ path_extension f /\
     String.length (path_extension f) = 4%nat).
Proof.
  unfold find_pdf_files. intros Hfind.
  assert (forall f, f ∈ files <->
     FileUtils_is_directory fs directory = Returned true /\
     exists e, e ∈ fs_entries fs directory /\ entry_path e = f /\
       entry_is_regular_file e = true /\
       string_tolower (path_extension f) = ".pdf") as Hiff.
  { intros f. destruct (FileUtils_is_directory fs directory) as [[|]|]; try discriminate.
    - injection Hfind as <-. rewrite list_elem_of_In, in_map_iff. split.
      + intros (e & <- & He). apply filter_In in He as (He & Hpdf).
        unfold is_pdf_entry in Hpdf. apply andb_true_iff in Hpdf as (Hreg & Hext).
        apply String.eqb_eq in Hext. split; [reflexivity|].
        exists e. rewrite list_elem_of_In. auto.
      + intros (_ & e & He & <- & Hreg & Hext). exists e. split; [reflexivity|].
        apply filter_In. split; [now apply list_elem_of_In|].
        unfold is_pdf_entry. rewrite Hreg, Hext. reflexivity.
    - injection Hfind as <-. split; [intros H; inversion H|intros (? & _); discriminate]. }
  split; [|split; [|split]].
  - intros Hdir. rewrite Hdir in Hfind. now injection Hfind as <-.
  - destruct (FileUtils_is_directory fs directory) as [[|]|]; try discriminate;
      injection Hfind as <-; [|apply sublist_nil_l].
    apply filtered_paths_sublist.
  - exact Hiff.
  - intros f Hf. apply Hiff in Hf as (_ & e & _ & _ & _ & Hext).
    destruct (stem_extension f) as [Hsplit Hstem].
    assert (String.length (path_extension f) = 4%nat) as Hlen.
    { rewrite <- string_tolower_length, Hext. reflexivity. }
    unfold get_filename_without_extension.
    split; [|split; [now rewrite Hsplit|exact Hlen]].
    apply Hstem. intros Hempty. rewrite Hempty in Hlen. discriminate.
Qed.

Lemma find_pdf_files_witness :
  sublist ["in/a.pdf"; "in/sub/B.PDF"] (map entry_path (fs_entries sample_fs "in")).
Proof.
  refine (proj1 (proj2 (find_pdf_files_spec sample_fs "in" _ _))).
  reflexivity.
Defined.

(** *** Output paths *)

Lemma append_nil_r (s : string) : s +:+ "" = s.
Proof.
  induction s as [|c s IH]; [reflexivity|].
  change (String c (s +:+ "") = String c s). now rewrite IH.
Qed.

Lemma no_slash_app a b : no_slash (a +:+ b) = no_slash a && no_slash b.
Proof.
  induction a as [|c a IH]; [reflexivity|].
  change (no_slash (String c (a +:+ b)) = no_slash (String c a) && no_slash b).
  cbn [no_slash]. rewrite IH. now destruct (Ascii.eqb c slash).
Qed.

Lemma path_filename_from_no_slash s acc :
  no_slash s = true -> path_filename_from s acc = acc +:+ s.
Proof.
  revert acc. induction s as [|c s IH]; intros acc Hs; cbn [path_filename_from].
  - now rewrite append_nil_r.
  - cbn [no_slash] in Hs. apply andb_true_iff in Hs as [Hc Hs].
    destruct (Ascii.eqb c slash); [discriminate|].
    rewrite IH by exact Hs. now rewrite <- append_assoc.
Qed.

Lemma path_filename_from_app a b acc :
  path_filename_from (a +:+ b) acc = path_filename_from b (path_filename_from a acc).
Proof.
  revert acc. induction a as [|c a IH]; intros acc; [reflexivity|].
  change (path_filename_from (String c (a +:+ b)) acc =
          path_filename_from b (path_filename_from (String c a) acc)).
  cbn [path_filename_from]. destruct (Ascii.eqb c slash); apply IH.
Qed.

Lemma string_last_cons c s :
  string_last (String c s) =
    match s with EmptyString => Some c | String _ _ => string_last s end.
Proof. unfold string_last. cbn. now destruct s. Qed.

Lemma path_filename_from_trailing_slash dir acc l :
  string_last dir = Some l -> Ascii.eqb l slash = true ->
  path_filename_from dir acc = EmptyString.
Proof.
  revert acc. induction dir as [|c dir IH]; intros acc Hlast Hl; [discriminate|].
  rewrite string_last_cons in Hlast. cbn [path_filename_from].
  destruct dir as [|d dir].
  - injection Hlast as ->. now rewrite Hl.
  - destruct (Ascii.eqb c slash); now apply IH.
Qed.

Lemma path_append_filename dir name :
  name <> EmptyString -> no_slash name = true ->
  path_filename (path_append dir name) = name.
Proof.
  intros Hne Hname. unfold path_append, path_filename.
  destruct name as [|c rest]; [congruence|].
  pose proof Hname as Hname'. cbn [no_slash] in Hname'.
  apply andb_true_iff in Hname' as [Hc _].
  destruct (Ascii.eqb c slash); [discriminate|].
  destruct (string_last dir) as [l|] eqn:Hlast.
  - destruct (Ascii.eqb l slash) eqn:Hl.
    + rewrite path_filename_from_app,
        (path_filename_from_trailing_slash dir _ l Hlast Hl).
      now apply path_filename_from_no_slash.
    + rewrite !path_filename_from_app.
      change (path_filename_from "/" (path_filename_from dir "")) with EmptyString.
      now apply path_filename_from_no_slash.
  - now apply path_filename_from_no_slash.
Qed.

(** X16. Joining a directory and a non-empty name without separator
    gives a path whose file name is that name, whatever the directory
    (empty, with or without trailing separator). *)
Theorem join_path_filename dir name :
  name <> EmptyString -> no_slash name = true ->
  path_filename (join_path dir name) = name.
Proof. intros Hne Hname. unfold join_path. now apply path_append_filename. Qed.

Lemma join_path_filename_witness :
  path_filename (join_path "out/" "report_page_007.png") = "report_page_007.png".
Proof. apply join_path_filename; [discriminate|reflexivity]. Defined.

Lemma no_slash_path_filename_from s acc :
  no_slash acc = true -> no_slash (path_filename_from s acc) = true.
Proof.
  revert acc. induction s as [|c s IH]; intros acc Hacc; [exact Hacc|].
  cbn [path_filename_from]. destruct (Ascii.eqb c slash) eqn:Hc; apply IH; [reflexivity|].
  rewrite no_slash_app, Hacc. cbn [no_slash]. now rewrite Hc.
Qed.

Lemma no_slash_before_last_dot s pre :
  no_slash s = true -> before_last_dot s = Some pre -> no_slash pre = true.
Proof.
  revert pre. induction s as [|c s IH]; intros pre Hs Hpre; [discriminate|].
  cbn [no_slash] in Hs. apply andb_true_iff in Hs as [Hc Hs].
  cbn [before_last_dot] in Hpre.
  destruct (before_last_dot s) as [p|].
  - injection Hpre as <-. cbn [no_slash]. now rewrite Hc, (IH p Hs eq_refl).
  - destruct (Ascii.eqb c dot); [now injection Hpre as <-|discriminate].
Qed.

Lemma no_slash_path_stem p : no_slash (path_stem p) = true.
Proof.
  unfold path_stem.
  assert (no_slash (path_filename p) = true) as Hf
    by now apply no_slash_path_filename_from.
  destruct (String.eqb (path_filename p) "." || String.eqb (path_filename p) "..");
    [exact Hf|].
  destruct (path_filename p) as [|c rest]; [reflexivity|].
  destruct (before_last_dot rest) as [pre|] eqn:Hpre; [|exact Hf].
  cbn [no_slash] in *. apply andb_true_iff in Hf as [Hc Hrest].
  now rewrite Hc, (no_slash_before_last_dot rest pre Hrest Hpre).
Qed.

Lemma digit_char_no_slash n : Ascii.eqb (digit_char (n mod 10)) slash = false.
Proof.
  assert (0 <= n mod 10 < 10) as Hd by (apply Z.mod_pos_bound; lia).
  assert (n mod 10 = 0 \/ n mod 10 = 1 \/ n mod 10 = 2 \/ n mod 10 = 3 \/
          n mod 10 = 4 \/ n mod 10 = 5 \/ n mod 10 = 6 \/ n mod 10 = 7 \/
          n mod 10 = 8 \/ n mod 10 = 9) as Hcases by lia.
  repeat destruct Hcases as [->|Hcases]; try rewrite Hcases; reflexivity.
Qed.

Lemma no_slash_decimal_digits fuel n acc :
  no_slash acc = true -> no_slash (decimal_digits fuel n acc) = true.
Proof.
  revert n acc. induction fuel as [|fuel IH]; intros n acc Hacc; [exact Hacc|].
  cbn [decimal_digits].
  assert (no_slash (String (digit_char (n mod 10)) acc) = true) as Hnext.
  { cbn [no_slash]. now rewrite digit_char_no_slash, Hacc. }
  destruct (n <? 10); [exact Hnext|now apply IH].
Qed.

Lemma no_slash_to_string v : no_slash (to_string v) = true.
Proof.
  unfold to_string. destruct (v <? 0).
  - cbn [no_slash]. now rewrite no_slash_decimal_digits.
  - now apply no_slash_decimal_digits.
Qed.

Lemma no_slash_repeat_zero n : no_slash (repeat_char n "0") = true.
Proof. induction n as [|n IH]; [reflexivity|]. cbn [repeat_char no_slash]. now rewrite IH. Qed.

(** X17. For an output format without separator, every name
    [generate_output_filename] returns is non-empty and without
    separator, so the path [convert_pdf] builds from the output
    directory and that name has exactly that name as its file name: the
    page images of a document are files of the output directory itself,
    wherever the document lies. *)
Theorem generated_name_is_file_name pf pdf_path page_number extension output_dir name :
  no_slash extension = true ->
  generate_output_filename pf pdf_path page_number extension = Returned name ->
  name <> EmptyString /\ no_slash name = true /\
  path_filename (path_append output_dir name) = name.
Proof.
  intros Hext Hname. unfold generate_output_filename, string_fill in Hname.
  destruct (string_max_size pf <? _); [discriminate|]. injection Hname as <-.
  assert (no_slash (path_stem pdf_path +:+ "_page_" +:+
                    repeat_char (Z.to_nat (size_t_sub pf 3
                        (string_size (to_string page_number)))) "0" +:+
                    to_string page_number +:+ "." +:+ extension) = true) as Hno.
  { rewrite !no_slash_app, no_slash_path_stem, no_slash_repeat_zero,
      no_slash_to_string, Hext. reflexivity. }
  assert (path_stem pdf_path +:+ "_page_" +:+
          repeat_char (Z.to_nat (size_t_sub pf 3
              (string_size (to_string page_number)))) "0" +:+
          to_string page_number +:+ "." +:+ extension <> EmptyString) as Hne.
  { destruct (path_stem pdf_path); discriminate. }
  split; [exact Hne|]. split; [exact Hno|].
  now apply path_append_filename.
Qed.

Lemma generated_name_witness :
  path_filename (path_append "out" "report_page_007.png") = "report_page_007.png".
Proof.
  refine (proj2 (proj2 (generated_name_is_file_name (lp64 4) "docs/report.pdf" 7 "png"
                          "out" "report_page_007.png" _ _))); reflexivity.
Defined.

(** ** The command line *)

Example parse_arguments_sample :
  parse_arguments sample_numbers
    ["-j"; "4"; "--max-width"; "1920"; "in"; "-q"; "out"; "extra"; "-f"] cli_defaults =
    Parsed {| cli_input_dir := "in"; cli_output_dir := "out"; cli_num_threads := 4;
              cli_dpi := 300%float; cli_format := "png";
              cli_max_width := 1920; cli_max_height := 0;
              cli_preserve_aspect_ratio := true;
              cli_verbose := false; cli_quiet := true |} /\
  parse_arguments sample_numbers ["in"; "-j"; "four"; "out"] cli_defaults = ParsedThrew /\
  parse_arguments sample_numbers ["in"; "--fast"; "-h"] cli_defaults
    = ParsedUnknownOption "--fast".
Proof. repeat split; reflexivity. Qed.

Lemma dirs_ok_set_positional o arg :
  dirs_ok o -> starts_with_dash arg = false -> dirs_ok (set_positional o arg).
Proof.
  intros (Hin & Hout & Horder) Harg. unfold set_positional, dirs_ok, directory_like in *.
  destruct (cli_input_dir o) as [|c input] eqn:Hi; cbn [is_empty].
  - cbn [cli_input_dir cli_output_dir]. split; [now right|]. split; [exact Hout|].
    intros Hne. now destruct (Horder Hne).
  - destruct (cli_output_dir o) as [|d output] eqn:Ho; cbn [is_empty].
    + cbn [cli_input_dir cli_output_dir]. split; [exact Hin|]. split; [now right|].
      discriminate.
    + rewrite Hi, Ho. auto.
Qed.

Lemma parse_arguments_dirs_step nums arg rest :
  (forall o0 o, dirs_ok o0 -> parse_arguments nums rest o0 = Parsed o -> dirs_ok o) ->
  (forall value rest', rest = value :: rest' ->
     forall o0 o, dirs_ok o0 -> parse_arguments nums rest' o0 = Parsed o -> dirs_ok o) ->
  forall o0 o, dirs_ok o0 -> parse_arguments nums (arg :: rest) o0 = Parsed o -> dirs_ok o.
Proof.
  intros Hrest Hrest' o0 o Hok Hparse. cbn [parse_arguments] in Hparse.
  repeat match type of Hparse with
         | (if ?c then _ else _) = _ => destruct c eqn:?
         end;
    try discriminate;
    try (apply (Hrest _ o) in Hparse; [exact Hparse|]; try exact Hok;
         now apply dirs_ok_set_positional);
    destruct rest as [|value rest']; try (injection Hparse as <-; exact Hok);
    repeat match type of Hparse with
           | match ?c with _ => _ end = _ => destruct c eqn:?
           end;
    try discriminate;
    apply (Hrest' value rest' eq_refl _ o) in Hparse; exact Hparse || exact Hok.
Qed.

Lemma parse_arguments_dirs nums args :
  forall o0 o, dirs_ok o0 -> parse_arguments nums args o0 = Parsed o -> dirs_ok o.
Proof.
  assert ((forall o0 o, dirs_ok o0 -> parse_arguments nums args o0 = Parsed o -> dirs_ok o)
          /\ forall arg o0 o, dirs_ok o0 ->
               parse_arguments nums (arg :: args) o0 = Parsed o -> dirs_ok o) as [H _];
    [|exact H].
  induction args as [|b args [IH IH']].
  - split.
    + intros o0 o Hok [= <-]. exact Hok.
    + intros arg. apply parse_arguments_dirs_step.
      * intros o0 o Hok [= <-]. exact Hok.
      * intros value rest' Hnil. discriminate.
  - split; [apply IH'|].
    intros arg. apply parse_arguments_dirs_step; [apply IH'|].
    intros value rest' [= -> ->]. exact IH.
Qed.

(** X18. [main] runs the batch only with an input and an output
    directory that are both given, neither of which starts with a dash,
    and with an input path that is a directory. *)
Theorem startup_needs_two_directories nums fs args o :
  startup_of nums fs args = Start o ->
  cli_input_dir o <> EmptyString /\ cli_output_dir o <> EmptyString /\
  starts_with_dash (cli_input_dir o) = false /\
  starts_with_dash (cli_output_dir o) = false /\
  FileUtils_is_directory fs (cli_input_dir o) = Returned true.
Proof.
  unfold startup_of. intros Hstart.
  destruct (parse_arguments nums args cli_defaults) as [| | |o'] eqn:Hparse;
    try discriminate.
  assert (dirs_ok o') as (Hin & Hout & _).
  { apply (parse_arguments_dirs nums args cli_defaults); [|exact Hparse].
    unfold dirs_ok, directory_like. cbn. auto. }
  destruct (cli_input_dir o') as [|c input] eqn:Hi; [discriminate|].
  destruct (cli_output_dir o') as [|d output] eqn:Ho; [discriminate|].
  cbn [is_empty orb] in Hstart.
  destruct (FileUtils_is_directory fs (String c input)) as [[|]|] eqn:Hdir;
    try discriminate.
  injection Hstart as <-. rewrite Hi, Ho.
  destruct Hin as [?|Hin]; [discriminate|]. destruct Hout as [?|Hout]; [discriminate|].
  repeat split; try discriminate; assumption.
Qed.

Lemma startup_witness :
  FileUtils_is_directory sample_fs "in" = Returned true.
Proof.
  refine (proj2 (proj2 (proj2 (proj2 (startup_needs_two_directories sample_numbers
            sample_fs ["-j"; "4"; "in"; "out"]
            (set_numbers (with_directories cli_defaults "in" "out") 4 300 "png" 0 0)
            _))))).
  reflexivity.
Defined.

Lemma plain_is_no_option arg option_name :
  starts_with_dash arg = false -> starts_with_dash option_name = true ->
  String.eqb arg option_name = false.
Proof.
  intros Harg Hopt. apply String.eqb_neq. intros ->. congruence.
Qed.

Lemma parse_arguments_plain nums arg rest o :
  starts_with_dash arg = false ->
  parse_arguments nums (arg :: rest) o = parse_arguments nums rest (set_positional o arg).
Proof.
  intros Harg. cbn [parse_arguments]. unfold one_of.
  rewrite !(plain_is_no_option arg) by (exact Harg || reflexivity).
  cbn [orb]. now rewrite Harg.
Qed.

Lemma set_positional_full o arg :
  cli_input_dir o <> EmptyString -> cli_output_dir o <> EmptyString ->
  set_positional o arg = o.
Proof.
  intros Hi Ho. unfold set_positional.
  destruct (cli_input_dir o); [congruence|]. destruct (cli_output_dir o); [congruence|].
  reflexivity.
Qed.

Lemma parse_arguments_ignores_more nums more o :
  Forall (fun arg => starts_with_dash arg = false) more ->
  cli_input_dir o <> EmptyString -> cli_output_dir o <> EmptyString ->
  parse_arguments nums more o = Parsed o.
Proof.
  induction 1 as [|arg more Harg _ IH]; intros Hi Ho; [reflexivity|].
  rewrite parse_arguments_plain, set_positional_full by assumption. now apply IH.
Qed.

(** X19. Arguments that do not start with a dash are positional: the
    first is the input directory, the second the output directory, and
    any further one is ignored; with fewer than two of them, and no
    option, [main] returns 1 without running anything. *)
Theorem positional_arguments nums fs input_dir output_dir more :
  plain input_dir -> plain output_dir ->
  Forall (fun arg => starts_with_dash arg = false) more ->
  parse_arguments nums (input_dir :: output_dir :: more) cli_defaults =
    Parsed (with_directories cli_defaults input_dir output_dir) /\
  startup_of nums fs [input_dir] = Stop 1 /\
  startup_of nums fs [] = Stop 1.
Proof.
  intros [Hi Hidash] [Ho Hodash] Hmore. split; [|split].
  - rewrite !parse_arguments_plain by assumption.
    replace (set_positional (set_positional cli_defaults input_dir) output_dir)
      with (with_directories cli_defaults input_dir output_dir).
    + apply parse_arguments_ignores_more; [exact Hmore|exact Hi|exact Ho].
    + unfold set_positional. cbn. destruct input_dir; [congruence|]. reflexivity.
  - unfold startup_of. rewrite parse_arguments_plain by assumption.
    cbn. destruct input_dir; [congruence|]. reflexivity.
  - reflexivity.
Qed.

Lemma positional_arguments_witness :
  parse_arguments sample_numbers ["in"; "out"; "more"] cli_defaults =
    Parsed (with_directories cli_defaults "in" "out").
Proof.
  refine (proj1 (positional_arguments sample_numbers sample_fs "in" "out" ["more"] _ _ _)).
  - split; [discriminate|reflexivity].
  - split; [discriminate|reflexivity].
  - repeat constructor.
Defined.

Lemma filter_nonempty_iff {A} (f : A -> bool) (l : list A) :
  Z.of_nat (length (List.filter f l)) <> 0 <-> exists x, x ∈ l /\ f x = true.
Proof.
  split.
  - intros Hne. destruct (List.filter f l) as [|x xs] eqn:Hf; [cbn in Hne; lia|].
    assert (In x (List.filter f l)) as Hx by (rewrite Hf; now left).
    apply filter_In in Hx as [Hx Hfx]. exists x. now rewrite list_elem_of_In.
  - intros (x & Hx & Hfx).
    assert (In x (List.filter f l)) as Hin
      by (apply filter_In; now rewrite <- list_elem_of_In).
    destruct (List.filter f l); [contradiction|cbn; lia].
Qed.

(** X20. The exit status of [main] after a batch that was not cancelled,
    on a machine whose hardware concurrency is detected: it is 0 when
    the output directory was prepared and at least one of the files
    found converts, and 1 otherwise, whatever the number of threads
    asked for and the interleaving of the workers. *)
Theorem main_exit_status pf o files ready convert_file schedule :
  1 <= hardware_concurrency pf < 2 ^ 31 ->
  let env := main_env pf o files ready convert_file in
  let s := process_directory env schedule in
  returned s -> cancel_requested_ s = false ->
  (exit_code (result s) = 0 \/ exit_code (result s) = 1) /\
  (exit_code (result s) = 0 <->
   ready = true /\ exists f, f ∈ files /\ success (convert_file f) = true).
Proof.
  intros Hcores env s Hret Hcancel.
  split; [unfold exit_code; destruct (_ =? 0); auto|].
  assert (1 <= num_threads_ env) as Hthreads.
  { cbn. unfold BatchProcessor_ctor.
    destruct (Z.leb_spec (cli_num_threads o) 0); [|lia].
    rewrite int_of_unsigned_small; lia. }
  pose proof (phase_inv_holds env schedule) as Hphase. fold s in Hphase.
  unfold phase_inv in Hphase. unfold returned in Hret. rewrite Hret in Hphase.
  unfold exit_code.
  destruct Hphase as [(Hfiles & _ & _ & Hres)|[(_ & Hready & _ & _ & Hres)|(Hrun & _)]].
  - rewrite Hres. cbn in Hfiles |- *. subst files. split; [discriminate|].
    intros (_ & f & Hf & _). inversion Hf.
  - rewrite Hres. cbn in Hready |- *. subst ready. split; [discriminate|].
    intros (? & _). discriminate.
  - destruct Hrun as (Hfiles & Hready & _).
    destruct (complete_run_records_all env schedule Hret Hcancel Hfiles Hready Hthreads)
      as (Hall & Hres).
    fold s in Hall, Hres.
    assert (same_report (result s) (expected_report env (pdf_files env)))
      as (_ & Hsucc & _).
    { rewrite Hres. eapply same_report_trans; [apply aggregate_expected|].
      rewrite <- (files_by_index env) at 1.
      apply expected_report_perm. now rewrite Hall. }
    rewrite Hsucc. cbn [successful_conversions expected_report].
    cbn in Hready. subst ready.
    pose proof (filter_nonempty_iff (converts env) (pdf_files env)) as Hiff.
    destruct (Z.eqb_spec (Z.of_nat (length (List.filter (converts env) (pdf_files env)))) 0)
      as [Hzero|Hpos].
    + split; [discriminate|]. intros (_ & Hex). apply Hiff in Hex. contradiction.
    + split; [|reflexivity]. intros _. split; [reflexivity|]. now apply Hiff.
Qed.

Lemma main_exit_status_witness :
  exit_code (result (process_directory
      (main_env (lp64 4) (set_numbers (with_directories cli_defaults "in" "out")
                            2 300 "png" 0 0)
         ["a.pdf"; "b.pdf"; "c.pdf"] true sample_convert)
      two_worker_schedule)) = 0.
Proof.
  refine (proj2 (proj2 (main_exit_status (lp64 4)
            (set_numbers (with_directories cli_defaults "in" "out") 2 300 "png" 0 0)
            ["a.pdf"; "b.pdf"; "c.pdf"] true sample_convert two_worker_schedule
            _ _ _)) _).
  - simpl. lia.
  - reflexivity.
  - reflexivity.
  - split; [reflexivity|]. exists "a.pdf". split; [left|reflexivity].
Defined.

(** ** The progress bar *)

Lemma bar_inv_display total bar :
  bar_total bar = total ->
  Forall (fun shown => shown <= total) (bar_shown bar) ->
  (bar_finished bar = true -> bar_current bar = total) ->
  bar_inv total (display bar).
Proof.
  intros Htotal Hshown Hfinished. unfold bar_inv, display.
  cbn [bar_total bar_shown bar_finished bar_current].
  split; [exact Htotal|]. split.
  - constructor; [|exact Hshown].
    destruct (Z.ltb_spec (bar_total bar) (bar_current bar)); lia.
  - intros Hf. specialize (Hfinished Hf). split; [exact Hfinished|].
    exists (bar_shown bar). rewrite Hfinished, Htotal, Z.ltb_irrefl. reflexivity.
Qed.

Lemma bar_inv_step total bar c :
  bar_inv total bar -> bar_inv total (bar_step bar c).
Proof.
  intros Hinv. pose proof Hinv as (Htotal & Hshown & Hfinished).
  destruct c as [increment| |desc]; cbn [bar_step].
  - unfold update. destruct (bar_finished bar) eqn:Hf; [exact Hinv|].
    apply bar_inv_display; cbn; [exact Htotal|exact Hshown|congruence].
  - unfold finish. destruct (bar_finished bar) eqn:Hf; [exact Hinv|].
    apply bar_inv_display; cbn; [exact Htotal|exact Hshown|intros _; exact Htotal].
  - exact Hinv.
Qed.

Lemma bar_finished_stays bar calls :
  bar_finished bar = true -> fold_left bar_step calls bar = 
    fold_left bar_step
      (List.filter (fun c => match c with BarSetDescription _ => true | _ => false end) calls)
      bar.
Proof.
  revert bar. induction calls as [|c calls IH]; intros bar Hf; [reflexivity|].
  destruct c as [increment| |desc]; cbn [fold_left List.filter bar_step].
  - unfold update. rewrite Hf. now apply IH.
  - unfold finish. rewrite Hf. now apply IH.
  - now apply IH.
Qed.

Lemma bar_finished_kept bar calls :
  bar_finished bar = true -> bar_finished (fold_left bar_step calls bar) = true.
Proof.
  revert bar. induction calls as [|c calls IH]; intros bar Hf; [exact Hf|].
  cbn [fold_left]. apply IH.
  destruct c; cbn [bar_step].
  - unfold update. now rewrite Hf.
  - unfold finish. now rewrite Hf.
  - exact Hf.
Qed.

Lemma bar_finish_reached bar calls :
  In BarFinish calls -> bar_finished (fold_left bar_step calls bar) = true.
Proof.
  revert bar. induction calls as [|c calls IH]; intros bar Hin; [contradiction|].
  destruct Hin as [->|Hin]; [|now apply IH].
  cbn [fold_left bar_step]. apply bar_finished_kept.
  unfold finish. destruct (bar_finished bar) eqn:Hf; [exact Hf|reflexivity].
Qed.

Lemma bar_descriptions_show_nothing bar calls :
  bar_shown (fold_left bar_step
      (List.filter (fun c => match c with BarSetDescription _ => true | _ => false end) calls)
      bar) = bar_shown bar.
Proof.
  revert bar. induction calls as [|c calls IH]; intros bar; [reflexivity|].
  destruct c as [increment| |desc]; cbn [List.filter fold_left bar_step]; [apply IH..|].
  now rewrite IH.
Qed.

(** X21. Whatever calls a progress bar receives, no count it shows
    exceeds its total; once [finish] was called the bar stays finished
    with its counter at the total, the last count shown is the total,
    and later [update] and [finish] calls show nothing more. *)
Theorem progress_bar_counts total calls later :
  let bar := bar_run total calls in
  Forall (fun shown => shown <= total) (bar_shown bar) /\
  (In BarFinish calls ->
   bar_finished bar = true /\ bar_current bar = total /\
   (exists older, bar_shown bar = total :: older) /\
   bar_shown (fold_left bar_step later bar) = bar_shown bar).
Proof.
  intros bar.
  assert (forall cs, bar_inv total (bar_run total cs)) as Hinv.
  { intros cs. unfold bar_run.
    induction cs as [|c cs IH] using rev_ind.
    - apply bar_inv_display; cbn; [reflexivity|constructor|discriminate].
    - rewrite fold_left_app. now apply bar_inv_step. }
  destruct (Hinv calls) as (_ & Hshown & Hfinished). fold bar in Hshown, Hfinished.
  split; [exact Hshown|]. intros Hin.
  assert (bar_finished bar = true) as Hf by now apply bar_finish_reached.
  destruct (Hfinished Hf) as (Hcurrent & Holder).
  split; [exact Hf|]. split; [exact Hcurrent|]. split; [exact Holder|].
  rewrite (bar_finished_stays bar later Hf). apply bar_descriptions_show_nothing.
Qed.

Lemma progress_bar_witness :
  bar_shown (bar_run 3 [BarUpdate 1; BarUpdate 5; BarFinish; BarUpdate 1]) = [3; 3; 1; 0].
Proof.
  destruct (progress_bar_counts 3 [BarUpdate 1; BarUpdate 5; BarFinish] [BarUpdate 1])
    as (_ & Hfinish).
  destruct Hfinish as (_ & _ & _ & Hlater); [cbn; tauto|].
  unfold bar_run in *. rewrite <- fold_left_app in Hlater.
  exact (eq_trans Hlater eq_refl).
Defined.
